(** * picosnitch: the ledger update, the event queue, the initial poll and
      the subprocess monitor of [picosnitch.py], embedded in Rocq.

    The Python functions are translated one by one and keep their names.
    Dictionaries with string keys are [gmap string _]; the pid table, whose
    keys are Python ints and (after [initial_poll]) one Python str, is a
    [gmap pykey _].  A [str] is the sequence of its characters, read as
    code points below 256.  What the code asks of the outside world
    (the resolver, the file system, psutil, difflib, shlex, VirusTotal,
    the clock) is collected in the record [env]; nothing is assumed about
    it.  [toast] and [time.sleep] only notify or wait, they touch neither
    the ledger nor the pid table, and are left out at their call sites;
    so is an exception of the [print] that [toast] falls back on. *)

From stdpp Require Import base option list gmap strings sorting pretty.
From Stdlib Require Import Ascii QArith.

Local Open Scope string_scope.
Local Open Scope list_scope.
Local Open Scope Z_scope.

(** ** Python values and built-ins used by the code *)

(** A raised exception: [type(e).__name__] and [str(e.args)]. *)
Inductive exn := Exn (kind args : string).

(** An element of a JSON list such as [Config["Remote address unlog"]]:
    Python compares an int with an int and a str with a str; an int is
    never equal to a str. *)
Inductive jval := JInt (z : Z) | JStr (s : string).

Global Instance jval_eq_dec : EqDecision jval.
Proof. solve_decision. Defined.

(** A key of the pid table. *)
Inductive pykey := KInt (z : Z) | KStr (s : string).

Global Instance pykey_eq_dec : EqDecision pykey.
Proof. solve_decision. Defined.

Definition pykey_to_sum (k : pykey) : Z + string :=
  match k with KInt z => inl z | KStr s => inr s end.
Definition pykey_of_sum (k : Z + string) : pykey :=
  match k with inl z => KInt z | inr s => KStr s end.

Global Instance pykey_countable : Countable pykey.
Proof.
  apply (inj_countable' pykey_to_sum pykey_of_sum).
  intros [z|s]; reflexivity.
Defined.

(** [x in l] for a list. *)
Definition py_in {A} `{EqDecision A} (x : A) (l : list A) : bool :=
  bool_decide (x ∈ l).

(** Truth value of a str and of an int. *)
Definition truthy_str (s : string) : bool :=
  match s with EmptyString => false | _ => true end.
Definition truthy_int (z : Z) : bool := negb (Z.eqb z 0).

(** [sub in s] for two strs. *)
Fixpoint str_contains (sub s : string) : bool :=
  String.prefix sub s ||
  match s with
  | EmptyString => false
  | String _ s' => str_contains sub s'
  end.

(** Python's [str.isspace] on the characters below 256. *)
Definition py_isspace (c : Ascii.ascii) : bool :=
  let n := Ascii.nat_of_ascii c in
  bool_decide (n ∈ [9; 10; 11; 12; 13; 28; 29; 30; 31; 32; 133; 160]%nat).

(** [s.split()]: the maximal runs of non-space characters. *)
Fixpoint split_ws_go (cur : string) (s : string) : list string :=
  match s with
  | EmptyString => if truthy_str cur then [String.rev cur] else []
  | String c s' =>
      if py_isspace c
      then (if truthy_str cur then [String.rev cur] else []) ++ split_ws_go "" s'
      else split_ws_go (String c cur) s'
  end.
Definition split_ws (s : string) : list string := split_ws_go "" s.

(** [s.split(sep)] for a one-character separator. *)
Fixpoint split_on_go (sep : Ascii.ascii) (cur : string) (s : string) : list string :=
  match s with
  | EmptyString => [String.rev cur]
  | String c s' =>
      if bool_decide (c = sep)
      then String.rev cur :: split_on_go sep "" s'
      else split_on_go sep (String c cur) s'
  end.
Definition split_on (sep : Ascii.ascii) (s : string) : list string :=
  split_on_go sep "" s.

(** [sep.join(l)]. *)
Definition join (sep : string) (l : list string) : string := String.concat sep l.

(** [s.lower()] on the characters below 256. *)
Definition lower_char (c : Ascii.ascii) : Ascii.ascii :=
  let n := Ascii.nat_of_ascii c in
  if bool_decide (65 ≤ n ≤ 90)%nat || (bool_decide (192 ≤ n ≤ 222)%nat && negb (Nat.eqb n 215))
  then Ascii.ascii_of_nat (n + 32) else c.
Fixpoint lower (s : string) : string :=
  match s with
  | EmptyString => EmptyString
  | String c s' => String (lower_char c) (lower s')
  end.

(** ["*" * n]. *)
Fixpoint stars (n : nat) : string :=
  match n with O => "" | S n' => String "*"%char (stars n') end.

(** [l.index(x)], [None] when Python raises ValueError. *)
Fixpoint py_index {A} `{EqDecision A} (x : A) (l : list A) : option nat :=
  match l with
  | [] => None
  | y :: l' => if decide (y = x) then Some O else S <$> py_index x l'
  end.

(** [l.count(x)]. *)
Definition py_count {A} `{EqDecision A} (x : A) (l : list A) : nat :=
  length (filter (λ y, y = x) l).

(** [l.remove(x)]: drops the first occurrence. *)
Fixpoint py_remove {A} `{EqDecision A} (x : A) (l : list A) : list A :=
  match l with
  | [] => []
  | y :: l' => if decide (y = x) then l' else y :: py_remove x l'
  end.

(** [l.insert(i, x)]: an index past the end appends. *)
Definition py_insert {A} (i : nat) (x : A) (l : list A) : list A :=
  take i l ++ x :: drop i l.

(** [l.sort()] on strs (code point order) and on ints. *)
Definition sort_str (l : list string) : list string := merge_sort String.le l.
Definition sort_int (l : list Z) : list Z := merge_sort Z.le l.

(** ** The ledger *)

Record config := mkConfig {
  only_log_connections : bool;
  remote_address_unlog : list jval;
  vt_api_key : string;
  vt_file_upload : bool;
  vt_last_request : Q;
  vt_limit_request : Q }.

(** A value of [snitch["Processes"]]. *)
Record proc_entry := mkEntry {
  e_name : string;
  cmdlines : list string;
  first_seen : string;
  last_seen : string;
  days_seen : Z;
  ports : list Z;
  remote_addresses : list string;
  results : gmap string string }.

Record snitch := mkSnitch {
  Config : config;
  Errors : list string;
  Latest_Entries : list string;
  Names : gmap string (list string);
  Processes : gmap string proc_entry;
  Remote_Addresses : gmap string (list string) }.

Definition set_Config (c : config) (s : snitch) : snitch :=
  mkSnitch c (Errors s) (Latest_Entries s) (Names s) (Processes s) (Remote_Addresses s).
Definition set_Errors (l : list string) (s : snitch) : snitch :=
  mkSnitch (Config s) l (Latest_Entries s) (Names s) (Processes s) (Remote_Addresses s).
Definition set_Latest_Entries (l : list string) (s : snitch) : snitch :=
  mkSnitch (Config s) (Errors s) l (Names s) (Processes s) (Remote_Addresses s).
Definition set_Names (m : gmap string (list string)) (s : snitch) : snitch :=
  mkSnitch (Config s) (Errors s) (Latest_Entries s) m (Processes s) (Remote_Addresses s).
Definition set_Processes (m : gmap string proc_entry) (s : snitch) : snitch :=
  mkSnitch (Config s) (Errors s) (Latest_Entries s) (Names s) m (Remote_Addresses s).
Definition set_Remote_Addresses (m : gmap string (list string)) (s : snitch) : snitch :=
  mkSnitch (Config s) (Errors s) (Latest_Entries s) (Names s) (Processes s) m.

Definition set_vt_last_request (t : Q) (c : config) : config :=
  mkConfig (only_log_connections c) (remote_address_unlog c) (vt_api_key c)
           (vt_file_upload c) t (vt_limit_request c).

Definition set_e_name (n : string) (e : proc_entry) : proc_entry :=
  mkEntry n (cmdlines e) (first_seen e) (last_seen e) (days_seen e) (ports e)
          (remote_addresses e) (results e).
Definition set_cmdlines (l : list string) (e : proc_entry) : proc_entry :=
  mkEntry (e_name e) l (first_seen e) (last_seen e) (days_seen e) (ports e)
          (remote_addresses e) (results e).
Definition set_last_seen (t : string) (e : proc_entry) : proc_entry :=
  mkEntry (e_name e) (cmdlines e) (first_seen e) t (days_seen e) (ports e)
          (remote_addresses e) (results e).
Definition set_days_seen (d : Z) (e : proc_entry) : proc_entry :=
  mkEntry (e_name e) (cmdlines e) (first_seen e) (last_seen e) d (ports e)
          (remote_addresses e) (results e).
Definition set_ports (l : list Z) (e : proc_entry) : proc_entry :=
  mkEntry (e_name e) (cmdlines e) (first_seen e) (last_seen e) (days_seen e) l
          (remote_addresses e) (results e).
Definition set_remote_addresses (l : list string) (e : proc_entry) : proc_entry :=
  mkEntry (e_name e) (cmdlines e) (first_seen e) (last_seen e) (days_seen e) (ports e)
          l (results e).
Definition set_results (r : gmap string string) (e : proc_entry) : proc_entry :=
  mkEntry (e_name e) (cmdlines e) (first_seen e) (last_seen e) (days_seen e) (ports e)
          (remote_addresses e) r.

(** ** Events and process descriptors *)

(** The value under ["cmdline"]: a str in an exec event, a list of strs
    (or the [ad_value] [""]) in a psutil dictionary. *)
Inductive cmdval := CmdStr (s : string) | CmdList (l : list string).

(** The ["type"] of a dictionary; a psutil dictionary has no such key. *)
Inductive ptype := TExec | TConn | TPsutil.

Global Instance ptype_eq_dec : EqDecision ptype.
Proof. solve_decision. Defined.

(** The [proc] dictionaries.  Event dictionaries always carry ["type"]
    and ["pid"]; an exec event carries ["name"] and ["cmdline"] and is
    given ["exe"] by [process_queue]; a conn event carries ["ip"] and
    ["port"] and is given ["name"], ["exe"], ["cmdline"] from the pid
    table.  A key the dictionary does not hold yet is [""] or [0] here;
    the code reads no key before it is set. *)
Record proc := mkProc {
  p_type : ptype;
  p_pid : Z;
  p_name : string;
  p_exe : string;
  p_cmdline : cmdval;
  p_ip : string;
  p_port : Z }.

(** The [conn] dictionary handed to [update_snitch]. *)
Record conn := mkConn { ip : string; port : Z }.

(** [analysis.last_analysis_stats] with its [str]. *)
Record vt_stats := mkStats { malicious : Z; suspicious : Z; stats_str : string }.

(** A psutil connection: [conn.pid] and [conn.raddr] (empty tuple or
    [(ip, port)]). *)
Record sconn := mkSconn { c_pid : option Z; c_raddr : option (string * Z) }.

(** ** The outside world *)

Record env := mkEnv {
  (** [socket.getnameinfo((ip, 0), 0)[0]]; [None] when it raises *)
  getnameinfo : string → option string;
  (** [ipaddress.ip_address(s)] does not raise ValueError *)
  is_ip_address : string → bool;
  (** [ipaddress.ip_address(s).is_private]; the exception otherwise *)
  ip_is_private : string → exn + bool;
  (** [difflib.get_close_matches(a, l, n, cutoff)] *)
  get_close_matches : string → list string → nat → Q → list string;
  (** [difflib.SequenceMatcher(None, a, b, False).get_matching_blocks()] *)
  get_matching_blocks : string → string → list (nat * nat * nat);
  (** [hashlib.sha256(open(exe, "rb").read()).hexdigest()]; [None] when it raises *)
  file_sha256 : string → option string;
  (** [time.time()] and [time.ctime()] *)
  time_time : Q;
  time_ctime : string;
  (** [client.get_object("/files/" + sha256)]; [None] when it raises *)
  vt_get_object : string → option vt_stats;
  (** [client.scan_file(open(exe, "rb"), ...)] *)
  vt_scan_file : string → exn + vt_stats;
  (** [repr] of a str, [str] of a dictionary and of a psutil connection *)
  py_repr : string → string;
  str_proc : proc → string;
  str_sconn : sconn → string;
  (** [shlex.split(s)]; the ValueError otherwise *)
  shlex_split : string → exn + list string;
  (** [psutil.Process(pid).as_dict(attrs=[...], ad_value="")] *)
  psutil_Process : Z → exn + proc;
  (** [psutil.process_iter(attrs=[...], ad_value="")] *)
  process_iter : list proc;
  (** [os.path.isfile] *)
  isfile : string → bool;
  (** [psutil.net_connections(kind="all")], in the order the set is iterated *)
  net_connections : list sconn }.

(** ** The functions of [picosnitch.py] *)

Section Picosnitch.

Variable E : env.

(** [reverse_dns_lookup]: the original ip when the lookup fails. *)
Definition reverse_dns_lookup (ip : string) : string :=
  match getnameinfo E ip with
  | Some name => name
  | None => ip
  end.

(** [reverse_domain_name]: an ip is not reversed. *)
Definition reverse_domain_name (dns : string) : string :=
  if is_ip_address E dns then dns
  else join "." (reverse (split_on "."%char dns)).

(** The loop of [get_common_pattern] over the matching blocks: a block is
    [(match.a, match.b, match.size)]. *)
Definition common_pattern_step (a : string) (common_pattern : string)
    (m : nat * nat * nat) : string :=
  let '(ma, _, size) := m in
  let common_pattern := common_pattern +:+ stars (ma - String.length common_pattern) in
  common_pattern +:+ String.substring ma size a.

(** [while l.count(common_pattern) > 1: l.remove(common_pattern)]; every
    turn shortens [l], so [length l] turns are enough. *)
Fixpoint remove_extra (fuel : nat) (common_pattern : string) (l : list string)
    : list string :=
  match fuel with
  | O => l
  | S fuel' =>
      if bool_decide (1 < py_count common_pattern l)%nat
      then remove_extra fuel' common_pattern (py_remove common_pattern l)
      else l
  end.

(** [get_common_pattern(a, l, cutoff)]: the list after the call, or the
    ValueError of [l.index] (the list is then unchanged). *)
Definition get_common_pattern (a : string) (l : list string) (cutoff : Q)
    : exn + list string :=
  match get_close_matches E a l 1 cutoff with
  | b0 :: _ =>
      let common_pattern :=
        foldl (common_pattern_step a) "" (get_matching_blocks E (lower a) (lower b0)) in
      match py_index b0 l with
      | Some i =>
          let l := <[i := common_pattern]> l in
          inr (remove_extra (length l) common_pattern l)
      | None => inl (Exn "ValueError" (py_repr E b0 +:+ " is not in list"))
      end
  | [] => inr (l ++ [a])
  end.

(** [get_sha256]. *)
Definition get_sha256 (exe : string) : string :=
  match file_sha256 E exe with
  | Some h => h
  | None => "0000000000000000000000000000000000000000000000000000000000000000"
  end.

(** [get_vt_results(sha256, proc, config)]: the configuration after the
    call (["VT last request"] is set in place) and the result. *)
Definition get_vt_results (sha256 : string) (p : proc) (c : config)
    : config * (exn + string) :=
  if truthy_str (vt_api_key c) then
    let c := set_vt_last_request (time_time E) c in
    let check (analysis : vt_stats) := (c, inr (stats_str analysis)) in
    match vt_get_object E sha256 with
    | Some analysis => check analysis
    | None =>
        if vt_file_upload c then
          match vt_scan_file E (p_exe p) with
          | inr analysis => check analysis
          | inl e => (c, inl e)
          end
        else (c, inr "File not analyzed (analysis not found)")
    end
  else (c, inr "File not analyzed (no api key)").

(** [str(proc["cmdline"])]. *)
Definition str_cmdline (c : cmdval) : string :=
  match c with
  | CmdStr s => s
  | CmdList l => "[" +:+ join ", " (py_repr E <$> l) +:+ "]"
  end.

(** [conn["port"] not in unlog and proc["name"] not in unlog]. *)
Definition not_unlogged (c : config) (p : proc) (cn : conn) : bool :=
  negb (py_in (JInt (port cn)) (remote_address_unlog c)) &&
  negb (py_in (JStr (p_name p)) (remote_address_unlog c)).

(** [ctime.split()[:3] != entry["last seen"].split()[:3]]. *)
Definition day_tokens (t : string) : list string := take 3 (split_ws t).
Definition new_day (ctime last : string) : bool :=
  negb (bool_decide (day_tokens ctime = day_tokens last)).

(** *** [update_snitch], block by block *)

(** [# Update Latest Entries] *)
Definition update_latest_entries (s : snitch) (p : proc) (ctime : string) : snitch :=
  if negb (bool_decide (is_Some (Processes s !! p_exe p))) ||
     negb (bool_decide (is_Some (Names s !! p_name p)))
  then set_Latest_Entries
         (Latest_Entries s ++ [ctime +:+ " " +:+ p_name p +:+ " - " +:+ p_exe p]) s
  else s.

(** [# Update Names] *)
Definition update_names (s : snitch) (p : proc) (cn : conn) : snitch :=
  match Names s !! p_name p with
  | Some exes =>
      if negb (py_in (p_exe p) exes)
      then set_Names (<[p_name p := exes ++ [p_exe p]]> (Names s)) s
      else s
  | None =>
      if truthy_str (ip cn) || truthy_int (port cn)
      then set_Names (<[p_name p := [p_exe p]]> (Names s)) s
      else s
  end.

(** The [else] branch of [# Update Processes]: the entry is updated in
    place, statement after statement, so an exception leaves the fields
    already written. *)

(** [if proc["name"] not in entry["name"]: entry["name"] += ...] *)
Definition entry_name (entry : proc_entry) (p : proc) : proc_entry :=
  if negb (str_contains (p_name p) (e_name entry))
  then set_e_name (e_name entry +:+ " alternative=" +:+ p_name p) entry
  else entry.

(** [if str(proc["cmdline"]) not in entry["cmdlines"]: ...] *)
Definition entry_cmdlines (entry : proc_entry) (p : proc) : exn + proc_entry :=
  if negb (py_in (str_cmdline (p_cmdline p)) (cmdlines entry))
  then match get_common_pattern (str_cmdline (p_cmdline p)) (cmdlines entry) (8 # 10) with
       | inr l => inr (set_cmdlines (sort_str l) entry)
       | inl e => inl e
       end
  else inr entry.

(** [if conn["port"] not in entry["ports"]: ...] *)
Definition entry_ports (entry : proc_entry) (cn : conn) : proc_entry :=
  if negb (py_in (port cn) (ports entry))
  then set_ports (sort_int (ports entry ++ [port cn])) entry
  else entry.

(** [if reversed_dns not in entry["remote addresses"]: ...] *)
Definition entry_remote (c : config) (entry : proc_entry) (p : proc) (cn : conn)
    (reversed_dns : string) : proc_entry :=
  if negb (py_in reversed_dns (remote_addresses entry))
  then if not_unlogged c p cn
       then set_remote_addresses (remote_addresses entry ++ [reversed_dns]) entry
       else entry
  else entry.

(** [if sha256 not in entry["results"]: ...] *)
Definition entry_results (c : config) (entry : proc_entry) (p : proc)
    (sha256 : string) : config * (exn + proc_entry) :=
  match results entry !! sha256 with
  | None =>
      match get_vt_results sha256 p c with
      | (c, inr r) => (c, inr (set_results (<[sha256 := r]> (results entry)) entry))
      | (c, inl e) => (c, inl e)
      end
  | Some _ => (c, inr entry)
  end.

(** The day counter and [entry["last seen"] = ctime]. *)
Definition entry_seen (entry : proc_entry) (ctime : string) : proc_entry :=
  let entry :=
    if new_day ctime (last_seen entry)
    then set_days_seen (days_seen entry + 1) entry
    else entry in
  set_last_seen ctime entry.

Definition update_entry (c : config) (entry : proc_entry) (p : proc) (cn : conn)
    (sha256 ctime reversed_dns : string) : config * proc_entry * option exn :=
  let entry := entry_name entry p in
  match entry_cmdlines entry p with
  | inl e => (c, entry, Some e)
  | inr entry =>
      let entry := entry_ports entry cn in
      let entry := entry_remote c entry p cn reversed_dns in
      match entry_results c entry p sha256 with
      | (c, inl e) => (c, entry, Some e)
      | (c, inr entry) => (c, entry_seen entry ctime, None)
      end
  end.

(** [# Update Processes] *)
Definition update_processes (s : snitch) (p : proc) (cn : conn)
    (sha256 ctime reversed_dns : string) : snitch * option exn :=
  match Processes s !! p_exe p with
  | None =>
      match get_vt_results sha256 p (Config s) with
      | (c, inl e) => (set_Config c s, Some e)
      | (c, inr r) =>
          let s := set_Config c s in
          let entry :=
            {| e_name := p_name p;
               cmdlines := [str_cmdline (p_cmdline p)];
               first_seen := ctime;
               last_seen := ctime;
               days_seen := 1;
               ports := [port cn];
               remote_addresses := [];
               results := {[sha256 := r]} |} in
          let entry :=
            if not_unlogged (Config s) p cn
            then set_remote_addresses (remote_addresses entry ++ [reversed_dns]) entry
            else entry in
          (set_Processes (<[p_exe p := entry]> (Processes s)) s, None)
      end
  | Some entry =>
      match update_entry (Config s) entry p cn sha256 ctime reversed_dns with
      | (c, entry, r) =>
          (set_Processes (<[p_exe p := entry]> (Processes s)) (set_Config c s), r)
      end
  end.

(** [# Update Remote Addresses] *)
Definition no_processes_found : string := "No processes found during polling".

Definition update_remote_addresses (s : snitch) (p : proc) (cn : conn)
    (ctime reversed_dns : string) : snitch :=
  match Remote_Addresses s !! reversed_dns with
  | Some exes =>
      if negb (py_in (p_exe p) exes) then
        let exes := py_insert 1 (p_exe p) exes in
        let exes :=
          if py_in no_processes_found exes
          then py_remove no_processes_found exes
          else exes in
        set_Remote_Addresses (<[reversed_dns := exes]> (Remote_Addresses s)) s
      else s
  | None =>
      if not_unlogged (Config s) p cn
      then set_Remote_Addresses
             (<[reversed_dns := ["First connection: " +:+ ctime; p_exe p]]>
                (Remote_Addresses s)) s
      else s
  end.

(** [update_snitch(snitch, proc, conn, sha256, ctime)]: the ledger after
    the call and the exception it raised, if any. *)
Definition update_snitch (s : snitch) (p : proc) (cn : conn) (sha256 ctime : string)
    : snitch * option exn :=
  let reversed_dns := reverse_domain_name (reverse_dns_lookup (ip cn)) in
  let s := update_latest_entries s p ctime in
  let s := update_names s p cn in
  match update_processes s p cn sha256 ctime reversed_dns with
  | (s, Some e) => (s, Some e)
  | (s, None) => (update_remote_addresses s p cn ctime reversed_dns, None)
  end.

(** *** [process_queue] *)

(** [proc["name"] = known_pids[proc["pid"]]["name"]] and the two
    assignments after it. *)
Definition enrich (p known : proc) : proc :=
  {| p_type := p_type p; p_pid := p_pid p;
     p_name := p_name known; p_exe := p_exe known; p_cmdline := p_cmdline known;
     p_ip := p_ip p; p_port := p_port p |}.

Definition set_p_exe (exe : string) (p : proc) : proc :=
  {| p_type := p_type p; p_pid := p_pid p;
     p_name := p_name p; p_exe := exe; p_cmdline := p_cmdline p;
     p_ip := p_ip p; p_port := p_port p |}.

(** [shlex.split(proc["cmdline"])[i]]. *)
Definition shlex_word (p : proc) (i : nat) : exn + string :=
  match p_cmdline p with
  | CmdStr s =>
      match shlex_split E s with
      | inr words =>
          match words !! i with
          | Some w => inr w
          | None => inl (Exn "IndexError" "('list index out of range',)")
          end
      | inl e => inl e
      end
  | CmdList _ => inl (Exn "AttributeError" "('list object has no attribute read',)")
  end.

(** The first loop, over [new_processes]: the pid table after it, and
    [pending_list] and [pending_conns] or the exception that left the
    loop. *)
Fixpoint queue_new (only_log : bool) (known_pids : gmap pykey proc)
    (new_processes pending_list pending_conns : list proc)
    : gmap pykey proc * (exn + list proc * list proc) :=
  match new_processes with
  | [] => (known_pids, inr (pending_list, pending_conns))
  | p :: rest =>
      match p_type p with
      | TExec =>
          match shlex_word p 0 with
          | inl e => (known_pids, inl e)
          | inr exe =>
              let exe' := if bool_decide (exe = "exec") then shlex_word p 1 else inr exe in
              match exe' with
              | inl e => (known_pids, inl e)
              | inr exe =>
                  let p := set_p_exe exe p in
                  let known_pids := <[KInt (p_pid p) := p]> known_pids in
                  let pending_list :=
                    if negb only_log then pending_list ++ [p] else pending_list in
                  queue_new only_log known_pids rest pending_list pending_conns
              end
          end
      | TConn =>
          match known_pids !! KInt (p_pid p) with
          | Some known =>
              queue_new only_log known_pids rest (pending_list ++ [enrich p known])
                pending_conns
          | None =>
              match psutil_Process E (p_pid p) with
              | inl e => (known_pids, inl e)
              | inr proc_psutil =>
                  let known_pids :=
                    if truthy_str (p_exe proc_psutil)
                    then <[KInt (p_pid proc_psutil) := proc_psutil]> known_pids
                    else known_pids in
                  queue_new only_log known_pids rest pending_list (pending_conns ++ [p])
              end
          end
      | TPsutil => (known_pids, inl (Exn "KeyError" "('type',)"))
      end
  end.

(** The second loop, over [missed_conns]. *)
Fixpoint queue_missed (ctime : string) (known_pids : gmap pykey proc) (s : snitch)
    (missed_conns pending_list : list proc) : snitch * list proc :=
  match missed_conns with
  | [] => (s, pending_list)
  | p :: rest =>
      match known_pids !! KInt (p_pid p) with
      | Some known =>
          queue_missed ctime known_pids s rest (pending_list ++ [enrich p known])
      | None =>
          let s :=
            set_Errors
              (Errors s ++ [ctime +:+ " no known process for conn: " +:+ str_proc E p]) s in
          queue_missed ctime known_pids s rest pending_list
      end
  end.

(** The [conn] built in the third loop. *)
Definition conn_of (p : proc) : exn + conn :=
  match p_type p with
  | TConn => inr {| ip := p_ip p; port := p_port p |}
  | TExec => inr {| ip := ""; port := 0 |}
  | TPsutil => inl (Exn "KeyError" "('type',)")
  end.

(** The body of the [try] of the third loop. *)
Definition merge_pending (ctime : string) (s : snitch) (p : proc) : snitch * option exn :=
  match conn_of p with
  | inr cn => update_snitch s p cn (get_sha256 (p_exe p)) ctime
  | inl e => (s, Some e)
  end.

(** The third loop, over [pending_list]: an exception is written to
    [Errors]. *)
Fixpoint queue_pending (ctime : string) (s : snitch) (pending_list : list proc) : snitch :=
  match pending_list with
  | [] => s
  | p :: rest =>
      let s :=
        match merge_pending ctime s p with
        | (s, None) => s
        | (s, Some (Exn kind args)) =>
            set_Errors (Errors s ++ [ctime +:+ " " +:+ (kind +:+ args +:+ str_proc E p)]) s
        end in
      queue_pending ctime s rest
  end.

(** [process_queue(snitch, known_pids, missed_conns, new_processes)]: the
    ledger and the pid table after the call, and the returned
    [pending_conns] or the exception the call raised. *)
Definition process_queue (s : snitch) (known_pids : gmap pykey proc)
    (missed_conns new_processes : list proc)
    : snitch * gmap pykey proc * (exn + list proc) :=
  let ctime := time_ctime E in
  match queue_new (only_log_connections (Config s)) known_pids new_processes [] [] with
  | (known_pids, inl e) => (s, known_pids, inl e)
  | (known_pids, inr (pending_list, pending_conns)) =>
      let '(s, pending_list) := queue_missed ctime known_pids s missed_conns pending_list in
      let s := queue_pending ctime s pending_list in
      (s, known_pids, inr pending_conns)
  end.

(** *** [initial_poll] *)

(** [current_processes[exe] = info]: a key already present keeps its place. *)
Fixpoint dict_set (k : string) (v : proc) (d : list (string * proc))
    : list (string * proc) :=
  match d with
  | [] => [(k, v)]
  | (k', v') :: d' =>
      if bool_decide (k' = k) then (k, v) :: d' else (k', v') :: dict_set k v d'
  end.

(** [current_processes.pop(exe, 0)]. *)
Definition dict_pop (k : string) (d : list (string * proc)) : list (string * proc) :=
  filter (λ kv, kv.1 ≠ k) d.

(** The first loop, over [psutil.process_iter]. *)
Fixpoint poll_processes (procs : list proc) (current_processes : list (string * proc))
    (known_pids : gmap pykey proc) : list (string * proc) * gmap pykey proc :=
  match procs with
  | [] => (current_processes, known_pids)
  | info :: rest =>
      if isfile E (p_exe info)
      then poll_processes rest (dict_set (p_exe info) info current_processes)
             (<[KStr "pid" := info]> known_pids)
      else poll_processes rest current_processes known_pids
  end.

(** [conn.pid == proc["pid"]]; [proc] is [None] while it is still the
    dictionary of empty strs. *)
Definition same_pid (c : sconn) (p : option proc) : bool :=
  match c_pid c, p with
  | Some pid, Some p => Z.eqb pid (p_pid p)
  | _, _ => false
  end.

(** The [try] of the loop over the connections: the exception caught, if
    any, with the ledger, [proc] and [current_processes] as it left them. *)
Definition poll_connection (ctime : string) (c : sconn) (s : snitch)
    (p : option proc) (current_processes : list (string * proc))
    : snitch * option proc * list (string * proc) * option exn :=
  match c_pid c, c_raddr c with
  | Some pid, Some (rip, rport) =>
      match ip_is_private E rip with
      | inl e => (s, p, current_processes, Some e)
      | inr true => (s, p, current_processes, None)
      | inr false =>
          match psutil_Process E pid with
          | inl e => (s, p, current_processes, Some e)
          | inr pr =>
              let conn_dict := {| ip := rip; port := rport |} in
              let sha256 := get_sha256 (p_exe pr) in
              let current_processes := dict_pop (p_exe pr) current_processes in
              match update_snitch s pr conn_dict sha256 ctime with
              | (s, r) => (s, Some pr, current_processes, r)
              end
          end
      end
  | _, _ => (s, p, current_processes, None)
  end.

(** The loop over [current_connections]. *)
Fixpoint poll_connections (ctime : string) (conns : list sconn) (s : snitch)
    (p : option proc) (current_processes : list (string * proc))
    : snitch * list (string * proc) :=
  match conns with
  | [] => (s, current_processes)
  | c :: rest =>
      match poll_connection ctime c s p current_processes with
      | (s, p, current_processes, None) =>
          poll_connections ctime rest s p current_processes
      | (s, p, current_processes, Some (Exn kind args)) =>
          let error := "Init " +:+ kind +:+ args +:+ str_sconn E c in
          let error :=
            if same_pid c p
            then error +:+ match p with Some pr => str_proc E pr | None => "" end
            else error +:+ "{process no longer exists}" in
          let s := set_Errors (Errors s ++ [ctime +:+ " " +:+ error]) s in
          poll_connections ctime rest s p current_processes
      end
  end.

(** The loop over the processes left without a connection. *)
Fixpoint poll_remaining (ctime : string) (procs : list proc) (s : snitch) : snitch :=
  match procs with
  | [] => s
  | p :: rest =>
      let s :=
        match update_snitch s p {| ip := ""; port := 0 |} (get_sha256 (p_exe p)) ctime with
        | (s, None) => s
        | (s, Some (Exn kind args)) =>
            let error := "Init " +:+ kind +:+ args +:+ str_proc E p in
            set_Errors (Errors s ++ [ctime +:+ " " +:+ error]) s
        end in
      poll_remaining ctime rest s
  end.

(** [initial_poll(snitch, known_pids)]. *)
Definition initial_poll (s : snitch) (known_pids : gmap pykey proc)
    : snitch * gmap pykey proc :=
  let ctime := time_ctime E in
  let '(current_processes, known_pids) := poll_processes (process_iter E) [] known_pids in
  let '(s, current_processes) :=
    poll_connections ctime (net_connections E) s None current_processes in
  let s :=
    if negb (only_log_connections (Config s))
    then poll_remaining ctime (current_processes.*2) s
    else s in
  (s, known_pids).

End Picosnitch.

(** ** The connect probe of [bpf_text] *)

Module Bpf.

(** The address families of [linux/socket.h]. *)
Definition AF_UNSPEC : Z := 0.
Definition AF_UNIX : Z := 1.
Definition AF_INET : Z := 2.
Definition AF_INET6 : Z := 10.

(** What the probe submits, and to which buffer. *)
Inductive event :=
  | Ipv4 (pid daddr dport : Z)
  | Ipv6 (pid daddr dport : Z)
  | Other (pid af : Z).

(** [ntohs] of a 16-bit value on a little-endian host. *)
Definition ntohs (x : Z) : Z :=
  Z.lor (Z.shiftl (Z.land x 255) 8) (Z.land (Z.shiftr x 8) 255).

(** [security_socket_connect_entry]: [None] when nothing is submitted. *)
Definition security_socket_connect_entry (pid address_family daddr sin_port : Z)
    : option event :=
  if Z.eqb address_family AF_INET then
    let dport := ntohs sin_port in
    if negb (Z.eqb dport 0) then Some (Ipv4 pid daddr dport) else None
  else if Z.eqb address_family AF_INET6 then
    let dport := ntohs sin_port in
    if negb (Z.eqb dport 0) then Some (Ipv6 pid daddr dport) else None
  else if negb (Z.eqb address_family AF_UNIX) && negb (Z.eqb address_family AF_UNSPEC)
  then Some (Other pid address_family)
  else None.

(** [queue_ipv4_event], [queue_ipv6_event] and [queue_other_event]: the
    dictionary put on the queue; [inet_ntop] is the libc's. *)
Definition queue_event (inet_ntop4 inet_ntop6 : Z → string) (ev : event) : proc :=
  match ev with
  | Ipv4 pid daddr dport =>
      {| p_type := TConn; p_pid := pid; p_name := ""; p_exe := ""; p_cmdline := CmdStr "";
         p_ip := inet_ntop4 daddr; p_port := dport |}
  | Ipv6 pid daddr dport =>
      {| p_type := TConn; p_pid := pid; p_name := ""; p_exe := ""; p_cmdline := CmdStr "";
         p_ip := inet_ntop6 daddr; p_port := dport |}
  | Other pid _ =>
      {| p_type := TConn; p_pid := pid; p_name := ""; p_exe := ""; p_cmdline := CmdStr "";
         p_ip := ""; p_port := 0 |}
  end.

End Bpf.

(** ** [snitch_monitor] *)

Module Monitor.

(** What the loop of [snitch_monitor] keeps between two turns, with the
    number of subprocesses started so far and the messages put on
    [q_error]. *)
Record state := mkState {
  time_last_start : Q;
  started : nat;
  q_error : list string }.

(** What one turn of the loop observes, in the order it asks. *)
Record obs := mkObs {
  (** [p_snitch_sub.is_alive()] at the head of the turn *)
  alive : bool;
  (** [psutil.Process(p_snitch_sub.pid).memory_info().vms], or the exception *)
  vms : exn + Z;
  (** [time.time()] in the [elif] *)
  now : Q;
  (** [time.time()] right after a [start()] *)
  start_time : Q;
  (** [q_term.get(block=True, timeout=10)]: the truth value of the token,
      [None] for [queue.Empty] *)
  token : option bool;
  (** [multiprocessing.parent_process().is_alive()] *)
  parent_alive : bool;
  (** [p_snitch_sub.is_alive()] after the wait, of the subprocess then current *)
  alive_after_wait : bool }.

Inductive next := Continue | Break | Raise (e : exn).

(** A fresh [multiprocessing.Process] is started. *)
Definition restart (msg : string) (o : obs) (st : state) : state :=
  {| time_last_start := start_time o;
     started := S (started st);
     q_error := q_error st ++ [msg] |}.

(** The [try] at the end of a turn. *)
Definition wait_token (o : obs) : next :=
  match token o with
  | Some true => Break
  | Some false => Continue
  | None =>
      if negb (parent_alive o) || negb (alive_after_wait o) then Break else Continue
  end.

(** One turn of [while True]. *)
Definition turn (st : state) (o : obs) : state * next :=
  if alive o then
    match vms o with
    | inl e => (st, Raise e)
    | inr v =>
        if Z.ltb 512000000 v
        then let st :=
               restart "Snitch subprocess memory usage exceeded 512 MB, restarting snitch" o st in
             (st, wait_token o)
        else (st, wait_token o)
    end
  else if negb (Qle_bool (now o - time_last_start st) 300)
  then let st := restart "Snitch subprocess died, restarting snitch" o st in
       (st, wait_token o)
  else (st, wait_token o).

(** [snitch_monitor] from its first [start()] on, over the observations
    of the turns of its loop: the state when the loop
    is left, by [break] (the subprocess is then terminated and 0
    returned) or by an exception; [None] when the observations run out
    before the loop is left. *)
Fixpoint snitch_monitor (st : state) (os : list obs) : option (state * (exn + unit)) :=
  match os with
  | [] => None
  | o :: rest =>
      match turn st o with
      | (st, Continue) => snitch_monitor st rest
      | (st, Break) => Some (st, inr ())
      | (st, Raise e) => Some (st, inl e)
      end
  end.

(** *** Definitions for the statements about a turn *)

(** The restart as the specification words it, for one turn of the
    loop: with the parent alive and no token, a subprocess that has
    exited at least 300 s after its last start is replaced and the loop
    goes on. *)
Definition restart_claim (st : state) (o : obs) : Prop :=
  parent_alive o = true → token o = None →
  alive o = false → (300 <= now o - time_last_start st)%Q →
  started (turn st o).1 = S (started st) ∧ (turn st o).2 = Continue.

(** The subprocess started at 0, found dead. *)
Definition started_at_0 : state :=
  {| time_last_start := 0; started := 1; q_error := [] |}.

(** Found dead at [t], the parent alive, no token; [after] tells whether
    the subprocess then current is alive after the wait. *)
Definition found_dead (t : Q) (after : bool) : obs :=
  {| alive := false; vms := inr 0%Z; now := t; start_time := t; token := None;
     parent_alive := true; alive_after_wait := after |}.

End Monitor.

(** ** A concrete world and concrete ledgers, for the examples *)

Module Sample.

(** The [template] of [read()]. *)
Definition template_config : config :=
  {| only_log_connections := true;
     remote_address_unlog := [JStr "firefox"];
     vt_api_key := "";
     vt_file_upload := false;
     vt_last_request := 0;
     vt_limit_request := 15 |}.

Definition template : snitch :=
  {| Config := template_config;
     Errors := [];
     Latest_Entries := [];
     Names := ∅;
     Processes := ∅;
     Remote_Addresses := ∅ |}.

Definition with_unlog (l : list jval) (s : snitch) : snitch :=
  set_Config
    (mkConfig (only_log_connections (Config s)) l (vt_api_key (Config s))
              (vt_file_upload (Config s)) (vt_last_request (Config s))
              (vt_limit_request (Config s))) s.

Definition ip_char (c : Ascii.ascii) : bool :=
  let n := Ascii.nat_of_ascii c in
  bool_decide (48 ≤ n ≤ 57)%nat || Nat.eqb n 46.

(** A world without resolver, files, live processes or VirusTotal; difflib
    finds no close match; a str of digits and dots counts as an ip. *)
Definition quiet : env :=
  {| getnameinfo := λ _, None;
     is_ip_address := λ s, forallb ip_char (String.list_ascii_of_string s);
     ip_is_private := λ _, inr false;
     get_close_matches := λ _ _ _ _, [];
     get_matching_blocks := λ _ _, [];
     file_sha256 := λ _, None;
     time_time := 0;
     time_ctime := "Mon Jan  1 23:59:59 2024";
     vt_get_object := λ _, None;
     vt_scan_file := λ _, inl (Exn "FileNotFoundError" "()");
     py_repr := λ s, "'" +:+ s +:+ "'";
     str_proc := λ p, "{'pid': " +:+ pretty (p_pid p) +:+ "}";
     str_sconn := λ _, "sconn()";
     shlex_split := λ s, inr (split_ws s);
     psutil_Process := λ pid, inl (Exn "NoSuchProcess" ("(" +:+ pretty pid +:+ ",)"));
     process_iter := [];
     isfile := λ _, true;
     net_connections := [] |}.

(** The same world where difflib matches the first stored cmdline and
    reports the blocks of ['app', '--id=2'] against ['app', '--id=1']. *)
Definition matching : env :=
  {| getnameinfo := getnameinfo quiet;
     is_ip_address := is_ip_address quiet;
     ip_is_private := ip_is_private quiet;
     get_close_matches := λ _ l n _, take n l;
     get_matching_blocks := λ _ _, [(0, 0, 14); (15, 15, 2); (17, 17, 0)]%nat;
     file_sha256 := file_sha256 quiet;
     time_time := time_time quiet;
     time_ctime := time_ctime quiet;
     vt_get_object := vt_get_object quiet;
     vt_scan_file := vt_scan_file quiet;
     py_repr := py_repr quiet;
     str_proc := str_proc quiet;
     str_sconn := str_sconn quiet;
     shlex_split := shlex_split quiet;
     psutil_Process := psutil_Process quiet;
     process_iter := process_iter quiet;
     isfile := isfile quiet;
     net_connections := net_connections quiet |}.

Definition curl : proc :=
  {| p_type := TConn; p_pid := 100; p_name := "curl"; p_exe := "/usr/bin/curl";
     p_cmdline := CmdStr "curl http://1.2.3.4/"; p_ip := "1.2.3.4"; p_port := 80 |}.

Definition curl_exec : proc :=
  {| p_type := TExec; p_pid := 100; p_name := "curl"; p_exe := "/usr/bin/curl";
     p_cmdline := CmdStr "curl http://1.2.3.4/"; p_ip := ""; p_port := 0 |}.

Definition firefox : proc :=
  {| p_type := TConn; p_pid := 101; p_name := "firefox"; p_exe := "/usr/bin/firefox";
     p_cmdline := CmdStr "firefox"; p_ip := "1.2.3.4"; p_port := 443 |}.

Definition zeros : string :=
  "0000000000000000000000000000000000000000000000000000000000000000".

Definition monday : string := "Mon Jan  1 23:59:59 2024".
Definition tuesday : string := "Tue Jan  2 00:00:01 2024".

(** The ledger after curl connected to 1.2.3.4:80 on Monday. *)
Definition after_curl : snitch :=
  (update_snitch quiet template curl (mkConn "1.2.3.4" 80) zeros monday).1.

(** Its record of curl. *)
Definition after_curl_entry : proc_entry :=
  {| e_name := "curl";
     cmdlines := ["curl http://1.2.3.4/"];
     first_seen := monday;
     last_seen := monday;
     days_seen := 1;
     ports := [80];
     remote_addresses := ["1.2.3.4"];
     results := {[zeros := "File not analyzed (no api key)"]} |}.

(** A process whose cmdline is a list, as psutil reports it, seen twice
    with a different argument. *)
Definition app1 : proc :=
  {| p_type := TPsutil; p_pid := 300; p_name := "app"; p_exe := "/usr/bin/app";
     p_cmdline := CmdList ["app"; "--id=1"]; p_ip := ""; p_port := 0 |}.

Definition app2 : proc :=
  {| p_type := TPsutil; p_pid := 301; p_name := "app"; p_exe := "/usr/bin/app";
     p_cmdline := CmdList ["app"; "--id=2"]; p_ip := ""; p_port := 0 |}.

Definition after_app : snitch :=
  (update_snitch matching template app1 (mkConn "1.2.3.4" 80) zeros monday).1.

Definition after_app_entry : proc_entry :=
  {| e_name := "app";
     cmdlines := ["['app', '--id=1']"];
     first_seen := monday;
     last_seen := monday;
     days_seen := 1;
     ports := [80];
     remote_addresses := ["1.2.3.4"];
     results := {[zeros := "File not analyzed (no api key)"]} |}.

(** A conn event of a pid that no exec event announced. *)
Definition conn999 : proc :=
  {| p_type := TConn; p_pid := 999; p_name := ""; p_exe := ""; p_cmdline := CmdStr "";
     p_ip := "1.2.3.4"; p_port := 80 |}.

(** The world where psutil lists one running process, curl with pid 100. *)
Definition curl_running : proc :=
  {| p_type := TPsutil; p_pid := 100; p_name := "curl"; p_exe := "/usr/bin/curl";
     p_cmdline := CmdList ["curl"; "http://1.2.3.4/"]; p_ip := ""; p_port := 0 |}.

Definition one_process : env :=
  {| getnameinfo := getnameinfo quiet;
     is_ip_address := is_ip_address quiet;
     ip_is_private := ip_is_private quiet;
     get_close_matches := get_close_matches quiet;
     get_matching_blocks := get_matching_blocks quiet;
     file_sha256 := file_sha256 quiet;
     time_time := time_time quiet;
     time_ctime := time_ctime quiet;
     vt_get_object := vt_get_object quiet;
     vt_scan_file := vt_scan_file quiet;
     py_repr := py_repr quiet;
     str_proc := str_proc quiet;
     str_sconn := str_sconn quiet;
     shlex_split := shlex_split quiet;
     psutil_Process := λ pid,
       if Z.eqb pid 100 then inr curl_running else psutil_Process quiet pid;
     process_iter := [curl_running];
     isfile := isfile quiet;
     net_connections := [] |}.

End Sample.

(** ** Definitions for the statements *)

(** *** What a call writes *)

(** The fields of an existing record after a call that returns. *)
Definition name_after (en : proc_entry) (p : proc) : string :=
  if str_contains (p_name p) (e_name en) then e_name en
  else e_name en +:+ " alternative=" +:+ p_name p.

Definition ports_after (en : proc_entry) (cn : conn) : list Z :=
  if py_in (port cn) (ports en) then ports en
  else sort_int (ports en ++ [port cn]).

Definition remote_after (c : config) (en : proc_entry) (p : proc) (cn : conn)
    (rdns : string) : list string :=
  if negb (py_in rdns (remote_addresses en)) && not_unlogged c p cn
  then remote_addresses en ++ [rdns]
  else remote_addresses en.

Definition days_after (en : proc_entry) (ctime : string) : Z :=
  if new_day ctime (last_seen en) then days_seen en + 1 else days_seen en.

Section Statements.

Variable E : env.

(** The record written for an exe that is not in [Processes] yet. *)
Definition created_entry (c : config) (p : proc) (cn : conn)
    (sha256 ctime rdns r : string) : proc_entry :=
  {| e_name := p_name p;
     cmdlines := [str_cmdline E (p_cmdline p)];
     first_seen := ctime;
     last_seen := ctime;
     days_seen := 1;
     ports := [port cn];
     remote_addresses := if not_unlogged c p cn then [rdns] else [];
     results := {[sha256 := r]} |}.

End Statements.

(** The list written under an existing key of [Remote Addresses]. *)
Definition exes_after (exe : string) (exes : list string) : list string :=
  let exes := py_insert 1 exe exes in
  if py_in no_processes_found exes then py_remove no_processes_found exes else exes.

(** *** The unlog filter *)

(** The reading of the filter by strings: the decimal form of the port, or
    the process name, is in the list. *)
Definition unlog_by_string (c : config) (p : proc) (cn : conn) : Prop :=
  JStr (pretty (port cn)) ∈ remote_address_unlog c ∨
  JStr (p_name p) ∈ remote_address_unlog c.

(** What [in] tests: the port as the int it is, or the process name. *)
Definition unlog_by_value (c : config) (p : proc) (cn : conn) : Prop :=
  JInt (port cn) ∈ remote_address_unlog c ∨
  JStr (p_name p) ∈ remote_address_unlog c.

Section UnlogClaim.

Variable E : env.

(** The filter as the specification words it, for one call: the address is
    kept out of the record and no key is created for it exactly when the
    string form of the port or the name is in the list. *)
Definition unlog_claim_by_string (s : snitch) (p : proc) (cn : conn)
    (sha256 ctime : string) : Prop :=
  let rdns := reverse_domain_name E (reverse_dns_lookup E (ip cn)) in
  let out := update_snitch E s p cn sha256 ctime in
  ((∀ en, Processes out.1 !! p_exe p = Some en → rdns ∉ remote_addresses en) ∧
   (Remote_Addresses s !! rdns = None → Remote_Addresses out.1 !! rdns = None))
  ↔ unlog_by_string (Config s) p cn.

End UnlogClaim.

(** *** Names and Processes *)

(** Every record's stored name is a key of [Names] whose list holds the
    record's exe. *)
Definition names_invariant (s : snitch) : Prop :=
  ∀ exe en, Processes s !! exe = Some en →
    ∃ exes, Names s !! e_name en = Some exes ∧ exe ∈ exes.

(** The invariant as the specification words it, for one call. *)
Definition names_claim (E : env) (s : snitch) (p : proc) (cn : conn)
    (sha256 ctime : string) : Prop :=
  names_invariant s → names_invariant (update_snitch E s p cn sha256 ctime).1.

(** *** Cmdlines *)

(** The strs other than [x], in order. *)
Definition others x l : list string := filter (λ y, y ≠ x) l.

(** No record has a duplicate cmdline. *)
Definition cmdlines_nodup (s : snitch) : Prop :=
  ∀ exe en, Processes s !! exe = Some en → NoDup (cmdlines en).

(** *** What only grows *)

(** Every field of the configuration but ["VT last request"] is the same. *)
Definition config_kept (c c' : config) : Prop :=
  only_log_connections c' = only_log_connections c ∧
  remote_address_unlog c' = remote_address_unlog c ∧
  vt_api_key c' = vt_api_key c ∧
  vt_file_upload c' = vt_file_upload c ∧
  vt_limit_request c' = vt_limit_request c.

(** The ledger [s'] is the ledger [s] with things added: the two logs and
    the lists of [Names] are extended at their end, no key is lost, and a
    record keeps its ["first seen"] while its ["days seen"] does not
    decrease. *)
Record ledger_grows (s s' : snitch) : Prop := mkGrows {
  grows_Config : config_kept (Config s) (Config s');
  grows_Errors : Errors s `prefix_of` Errors s';
  grows_Latest_Entries : Latest_Entries s `prefix_of` Latest_Entries s';
  grows_Names : ∀ name exes, Names s !! name = Some exes →
    ∃ exes', Names s' !! name = Some exes' ∧ exes `prefix_of` exes';
  grows_Processes : ∀ exe en, Processes s !! exe = Some en →
    ∃ en', Processes s' !! exe = Some en' ∧
      first_seen en' = first_seen en ∧ days_seen en ≤ days_seen en';
  grows_Remote_Addresses : ∀ rdns exes, Remote_Addresses s !! rdns = Some exes →
    is_Some (Remote_Addresses s' !! rdns) }.

(** *** Invariants of the records *)

(** The ports of every record are strictly increasing. *)
Definition ports_increasing (s : snitch) : Prop :=
  ∀ exe en, Processes s !! exe = Some en → Sorted Z.lt (ports en).

(** The cmdlines of every record are sorted, without duplicate, and there
    is at least one. *)
Definition cmdlines_kept (s : snitch) : Prop :=
  ∀ exe en, Processes s !! exe = Some en →
    Sorted String.le (cmdlines en) ∧ NoDup (cmdlines en) ∧ cmdlines en ≠ [].

(** No list of [Names] holds an exe twice. *)
Definition names_nodup (s : snitch) : Prop :=
  ∀ name exes, Names s !! name = Some exes → NoDup exes.

(** *** More sample events *)

Module Batch.

(** curl is executed under pid 100 and connects to 1.2.3.4:80. *)
Definition exec100 : proc :=
  {| p_type := TExec; p_pid := 100; p_name := "curl"; p_exe := "";
     p_cmdline := CmdStr "curl http://1.2.3.4/"; p_ip := ""; p_port := 0 |}.

Definition conn100 : proc :=
  {| p_type := TConn; p_pid := 100; p_name := ""; p_exe := ""; p_cmdline := CmdStr "";
     p_ip := "1.2.3.4"; p_port := 80 |}.

(** An exec event whose cmdline has no word. *)
Definition exec_empty : proc :=
  {| p_type := TExec; p_pid := 101; p_name := "sh"; p_exe := "";
     p_cmdline := CmdStr ""; p_ip := ""; p_port := 0 |}.

(** The ledger after the batch of the two events of curl. *)
Definition after_batch : snitch :=
  (process_queue Sample.quiet Sample.template ∅ [] [exec100; conn100]).1.1.

(** The world of [Sample.one_process] where curl holds a connection to a
    private address. *)
Definition private_connection : env :=
  {| getnameinfo := getnameinfo Sample.quiet;
     is_ip_address := is_ip_address Sample.quiet;
     ip_is_private := λ rip, inr (String.prefix "192.168." rip);
     get_close_matches := get_close_matches Sample.quiet;
     get_matching_blocks := get_matching_blocks Sample.quiet;
     file_sha256 := file_sha256 Sample.quiet;
     time_time := time_time Sample.quiet;
     time_ctime := time_ctime Sample.quiet;
     vt_get_object := vt_get_object Sample.quiet;
     vt_scan_file := vt_scan_file Sample.quiet;
     py_repr := py_repr Sample.quiet;
     str_proc := str_proc Sample.quiet;
     str_sconn := str_sconn Sample.quiet;
     shlex_split := shlex_split Sample.quiet;
     psutil_Process := psutil_Process Sample.one_process;
     process_iter := [Sample.curl_running];
     isfile := isfile Sample.quiet;
     net_connections := [{| c_pid := Some 100; c_raddr := Some ("192.168.1.1", 80) |}] |}.

(** Noon of the Monday of [Sample.monday]. *)
Definition monday_noon : string := "Mon Jan  1 12:00:00 2024".

(** /usr/bin/curl executed under the name url, without connection, and
    connecting under the name wget. *)
Definition curl_as_url : proc :=
  {| p_type := TExec; p_pid := 102; p_name := "url"; p_exe := "/usr/bin/curl";
     p_cmdline := CmdStr "curl http://1.2.3.4/"; p_ip := ""; p_port := 0 |}.

Definition curl_as_wget : proc :=
  {| p_type := TConn; p_pid := 103; p_name := "wget"; p_exe := "/usr/bin/curl";
     p_cmdline := CmdStr "curl http://1.2.3.4/"; p_ip := "1.2.3.4"; p_port := 80 |}.

End Batch.

(** *** Connections the initial poll passes over *)

(** A connection without pid, without remote address, or with a private
    remote ip. *)
Definition passed_over (E : env) (c : sconn) : Prop :=
  c_pid c = None ∨ c_raddr c = None ∨
  ∃ rip rport, c_raddr c = Some (rip, rport) ∧ ip_is_private E rip = inr true.

(** *** Strs without a given character *)

Fixpoint has_char (c : Ascii.ascii) (s : string) : bool :=
  match s with
  | EmptyString => false
  | String a s' => bool_decide (a = c) || has_char c s'
  end.

(** *** The whitespace-separated tokens of a str, as a specification *)

(** A str of whitespace only, and a str without whitespace. *)
Fixpoint spaces (s : string) : bool :=
  match s with
  | EmptyString => true
  | String c s' => py_isspace c && spaces s'
  end.

Fixpoint spaceless (s : string) : bool :=
  match s with
  | EmptyString => true
  | String c s' => negb (py_isspace c) && spaceless s'
  end.

Definition starts_with_space (s : string) : bool :=
  match s with
  | EmptyString => false
  | String c _ => py_isspace c
  end.

(** [tokens_of s ts]: the str [s] is the tokens [ts], each a non-empty
    run without whitespace, each preceded by whitespace (none is needed
    before the first) and running up to the next whitespace or to the
    end of [s]; whitespace may follow the last one. *)
Inductive tokens_of : string → list string → Prop :=
  | tokens_of_nil sp :
      spaces sp = true → tokens_of sp []
  | tokens_of_cons sp t rest ts :
      spaces sp = true →
      t ≠ "" → spaceless t = true →
      rest = "" ∨ starts_with_space rest = true →
      tokens_of rest ts →
      tokens_of (sp +:+ t +:+ rest) (t :: ts).

(** * Properties *)

(** ** Which block writes which part of the ledger *)

Section Frames.

Variable E : env.

Lemma latest_entries_frame s p ctime :
  Names (update_latest_entries s p ctime) = Names s ∧
  Processes (update_latest_entries s p ctime) = Processes s ∧
  Remote_Addresses (update_latest_entries s p ctime) = Remote_Addresses s ∧
  Config (update_latest_entries s p ctime) = Config s ∧
  Errors (update_latest_entries s p ctime) = Errors s.
Proof. unfold update_latest_entries. by case_match. Qed.

Lemma names_frame s p cn :
  Latest_Entries (update_names s p cn) = Latest_Entries s ∧
  Processes (update_names s p cn) = Processes s ∧
  Remote_Addresses (update_names s p cn) = Remote_Addresses s ∧
  Config (update_names s p cn) = Config s ∧
  Errors (update_names s p cn) = Errors s.
Proof. unfold update_names. by repeat case_match. Qed.

Lemma processes_frame s p cn sha256 ctime rdns :
  Latest_Entries (update_processes E s p cn sha256 ctime rdns).1 = Latest_Entries s ∧
  Names (update_processes E s p cn sha256 ctime rdns).1 = Names s ∧
  Remote_Addresses (update_processes E s p cn sha256 ctime rdns).1 = Remote_Addresses s ∧
  Errors (update_processes E s p cn sha256 ctime rdns).1 = Errors s.
Proof. unfold update_processes. by repeat case_match. Qed.

Lemma remote_addresses_frame s p cn ctime rdns :
  Latest_Entries (update_remote_addresses s p cn ctime rdns) = Latest_Entries s ∧
  Names (update_remote_addresses s p cn ctime rdns) = Names s ∧
  Processes (update_remote_addresses s p cn ctime rdns) = Processes s ∧
  Config (update_remote_addresses s p cn ctime rdns) = Config s ∧
  Errors (update_remote_addresses s p cn ctime rdns) = Errors s.
Proof. unfold update_remote_addresses. by repeat case_match. Qed.

(** [update_snitch] as the composition of its blocks. *)
Lemma update_snitch_Latest_Entries s p cn sha256 ctime :
  Latest_Entries (update_snitch E s p cn sha256 ctime).1 =
  Latest_Entries (update_latest_entries s p ctime).
Proof.
  unfold update_snitch.
  set (rdns := reverse_domain_name E _).
  set (s2 := update_names _ p cn).
  pose proof (processes_frame s2 p cn sha256 ctime rdns) as (HL & _).
  destruct (update_processes E s2 p cn sha256 ctime rdns) as [s3 [e|]]; simpl in *.
  - rewrite HL. apply names_frame.
  - destruct (remote_addresses_frame s3 p cn ctime rdns) as (-> & _).
    rewrite HL. apply names_frame.
Qed.

End Frames.

(** ** Latest Entries *)

(** C6. A call of [update_snitch] appends exactly one line to
    [Latest Entries], the line [ctime name - exe], if and only if at call
    entry [proc["exe"]] is not a key of [Processes] or [proc["name"]] is
    not a key of [Names]; otherwise [Latest Entries] is unchanged.  This
    holds for every outcome of the call. *)
Theorem update_snitch_latest_entries_iff E s p cn sha256 ctime :
  let new_pair := Processes s !! p_exe p = None ∨ Names s !! p_name p = None in
  let after := Latest_Entries (update_snitch E s p cn sha256 ctime).1 in
  (new_pair ↔ ∃ line, after = Latest_Entries s ++ [line]) ∧
  (new_pair ↔ after = Latest_Entries s ++ [ctime +:+ " " +:+ p_name p +:+ " - " +:+ p_exe p]) ∧
  (¬ new_pair ↔ after = Latest_Entries s).
Proof.
  intros new_pair after. subst after.
  rewrite update_snitch_Latest_Entries. unfold update_latest_entries.
  assert (Hne : ∀ line, Latest_Entries s ≠ Latest_Entries s ++ [line]).
  { intros line Heq. apply (f_equal length) in Heq.
    rewrite length_app in Heq. simpl in Heq. lia. }
  assert (Hdec : new_pair ↔
     negb (bool_decide (is_Some (Processes s !! p_exe p))) ||
     negb (bool_decide (is_Some (Names s !! p_name p))) = true).
  { unfold new_pair. rewrite orb_true_iff, !negb_true_iff, !bool_decide_eq_false.
    rewrite <- !eq_None_not_Some. done. }
  destruct (negb _ || negb _) eqn:Hc; simpl.
  - assert new_pair by (by apply Hdec).
    repeat split; eauto; try done.
    intros Heq. exfalso. by eapply Hne.
  - assert (¬ new_pair) by (rewrite Hdec; done).
    repeat split; try done.
    + intros (line & Heq). exfalso. by eapply Hne.
    + intros Heq. exfalso. by eapply Hne.
Qed.

(** ** [update_snitch] seen from the ledger at call entry *)

Section Decomposition.

Variable E : env.

Lemma get_vt_results_unlog sha256 p c :
  remote_address_unlog (get_vt_results E sha256 p c).1 = remote_address_unlog c.
Proof. unfold get_vt_results. by repeat case_match. Qed.

Lemma update_entry_unlog c en p cn sha256 ctime rdns :
  remote_address_unlog (update_entry E c en p cn sha256 ctime rdns).1.1 =
  remote_address_unlog c.
Proof.
  unfold update_entry.
  destruct (entry_cmdlines _ _ _) as [e|en1]; [done|].
  set (en2 := entry_remote _ _ _ _ _). unfold entry_results.
  pose proof (get_vt_results_unlog sha256 p c) as Hvt.
  destruct (results en2 !! sha256); [done|].
  by destruct (get_vt_results _ _ _ _) as [c2 [e2|r2]].
Qed.

Lemma update_processes_unlog s p cn sha256 ctime rdns :
  remote_address_unlog (Config (update_processes E s p cn sha256 ctime rdns).1) =
  remote_address_unlog (Config s).
Proof.
  unfold update_processes.
  pose proof (get_vt_results_unlog sha256 p (Config s)) as Hvt.
  destruct (Processes s !! p_exe p) as [en|].
  - pose proof (update_entry_unlog (Config s) en p cn sha256 ctime rdns) as Hen.
    by destruct (update_entry _ _ _ _ _ _ _ _) as [[c en'] r].
  - by destruct (get_vt_results _ _ _ _) as [c [e|r]].
Qed.

(** [update_processes] reads [Config] and [Processes] only. *)
Lemma update_processes_ext s s' p cn sha256 ctime rdns :
  Config s = Config s' → Processes s = Processes s' →
  Config (update_processes E s p cn sha256 ctime rdns).1 =
    Config (update_processes E s' p cn sha256 ctime rdns).1 ∧
  Processes (update_processes E s p cn sha256 ctime rdns).1 =
    Processes (update_processes E s' p cn sha256 ctime rdns).1 ∧
  (update_processes E s p cn sha256 ctime rdns).2 =
    (update_processes E s' p cn sha256 ctime rdns).2.
Proof.
  intros Hc Hp. unfold update_processes. rewrite Hc, Hp.
  destruct (Processes s' !! p_exe p) as [en|].
  - by destruct (update_entry _ _ _ _ _ _ _ _) as [[c en'] r].
  - destruct (get_vt_results _ _ _ _) as [c [e|r]]; simpl; by rewrite ?Hp.
Qed.

Lemma not_unlogged_ext c c' p cn :
  remote_address_unlog c = remote_address_unlog c' →
  not_unlogged c p cn = not_unlogged c' p cn.
Proof. unfold not_unlogged. by intros ->. Qed.

(** [update_remote_addresses] reads the unlog list and [Remote Addresses] only. *)
Lemma update_remote_addresses_ext s s' p cn ctime rdns :
  remote_address_unlog (Config s) = remote_address_unlog (Config s') →
  Remote_Addresses s = Remote_Addresses s' →
  Remote_Addresses (update_remote_addresses s p cn ctime rdns) =
  Remote_Addresses (update_remote_addresses s' p cn ctime rdns).
Proof.
  intros Hc Hr. unfold update_remote_addresses.
  rewrite Hr, (not_unlogged_ext _ _ p cn Hc). by repeat case_match.
Qed.

Lemma update_names_ext s s' p cn :
  Names s = Names s' → Names (update_names s p cn) = Names (update_names s' p cn).
Proof. intros Hn. unfold update_names. rewrite Hn. by repeat case_match. Qed.

Section Call.

Variables (s : snitch) (p : proc) (cn : conn) (sha256 ctime : string).

Let rdns := reverse_domain_name E (reverse_dns_lookup E (ip cn)).
Let out := update_snitch E s p cn sha256 ctime.

Lemma update_snitch_Names : Names out.1 = Names (update_names s p cn).
Proof.
  subst out. unfold update_snitch. fold rdns.
  set (s2 := update_names _ p cn).
  pose proof (processes_frame E s2 p cn sha256 ctime rdns) as (_ & HN & _).
  assert (Names s2 = Names (update_names s p cn)) as <-.
  { apply update_names_ext, latest_entries_frame. }
  destruct (update_processes E s2 p cn sha256 ctime rdns) as [s3 [e|]]; simpl in *;
    [done|].
  by destruct (remote_addresses_frame s3 p cn ctime rdns) as (_ & -> & _).
Qed.

Lemma update_snitch_Processes :
  Processes out.1 = Processes (update_processes E s p cn sha256 ctime rdns).1 ∧
  out.2 = (update_processes E s p cn sha256 ctime rdns).2.
Proof.
  subst out. unfold update_snitch. fold rdns.
  set (s2 := update_names _ p cn).
  destruct (update_processes_ext s2 s p cn sha256 ctime rdns) as (_ & HP & Hr).
  { subst s2. destruct (names_frame (update_latest_entries s p ctime) p cn)
      as (_ & _ & _ & -> & _). apply latest_entries_frame. }
  { subst s2. destruct (names_frame (update_latest_entries s p ctime) p cn)
      as (_ & -> & _). apply latest_entries_frame. }
  rewrite <- HP, <- Hr.
  destruct (update_processes E s2 p cn sha256 ctime rdns) as [s3 [e|]]; simpl; [done|].
  by destruct (remote_addresses_frame s3 p cn ctime rdns) as (_ & _ & -> & _).
Qed.

Lemma update_snitch_Remote_Addresses :
  Remote_Addresses out.1 =
    match out.2 with
    | None => Remote_Addresses (update_remote_addresses s p cn ctime rdns)
    | Some _ => Remote_Addresses s
    end.
Proof.
  subst out. unfold update_snitch. fold rdns.
  set (s1 := update_latest_entries s p ctime).
  set (s2 := update_names s1 p cn).
  pose proof (processes_frame E s2 p cn sha256 ctime rdns) as (_ & _ & HR & _).
  pose proof (update_processes_unlog s2 p cn sha256 ctime rdns) as HU.
  assert (HR2 : Remote_Addresses s2 = Remote_Addresses s).
  { subst s2 s1. destruct (names_frame (update_latest_entries s p ctime) p cn)
      as (_ & _ & -> & _). apply latest_entries_frame. }
  assert (HC2 : Config s2 = Config s).
  { subst s2 s1. destruct (names_frame (update_latest_entries s p ctime) p cn)
      as (_ & _ & _ & -> & _). apply latest_entries_frame. }
  destruct (update_processes E s2 p cn sha256 ctime rdns) as [s3 [e|]]; simpl in *.
  - congruence.
  - apply update_remote_addresses_ext; congruence.
Qed.

End Call.

End Decomposition.

(** ** The update of an existing entry, field by field *)

Section Entry.

Variable E : env.

Lemma entry_name_fields en p :
  let en' := entry_name en p in
  e_name en' = name_after en p ∧ cmdlines en' = cmdlines en ∧
  first_seen en' = first_seen en ∧ last_seen en' = last_seen en ∧
  days_seen en' = days_seen en ∧ ports en' = ports en ∧
  remote_addresses en' = remote_addresses en ∧ results en' = results en.
Proof. unfold entry_name, name_after. by destruct (str_contains _ _). Qed.

Lemma entry_cmdlines_fields en p en' :
  entry_cmdlines E en p = inr en' →
  e_name en' = e_name en ∧
  first_seen en' = first_seen en ∧ last_seen en' = last_seen en ∧
  days_seen en' = days_seen en ∧ ports en' = ports en ∧
  remote_addresses en' = remote_addresses en ∧ results en' = results en.
Proof.
  unfold entry_cmdlines. destruct (negb _); [|by intros [= <-]].
  destruct (get_common_pattern _ _ _ _); [done|]. by intros [= <-].
Qed.

Lemma entry_ports_fields en cn :
  let en' := entry_ports en cn in
  e_name en' = e_name en ∧ cmdlines en' = cmdlines en ∧
  first_seen en' = first_seen en ∧ last_seen en' = last_seen en ∧
  days_seen en' = days_seen en ∧ ports en' = ports_after en cn ∧
  remote_addresses en' = remote_addresses en ∧ results en' = results en.
Proof. unfold entry_ports, ports_after. by destruct (py_in _ _). Qed.

Lemma entry_remote_fields c en p cn rdns :
  let en' := entry_remote c en p cn rdns in
  e_name en' = e_name en ∧ cmdlines en' = cmdlines en ∧
  first_seen en' = first_seen en ∧ last_seen en' = last_seen en ∧
  days_seen en' = days_seen en ∧ ports en' = ports en ∧
  remote_addresses en' = remote_after c en p cn rdns ∧ results en' = results en.
Proof.
  unfold entry_remote, remote_after.
  by destruct (py_in _ _), (not_unlogged _ _ _).
Qed.

Lemma entry_results_fields c en p sha256 c' en' :
  entry_results E c en p sha256 = (c', inr en') →
  e_name en' = e_name en ∧ cmdlines en' = cmdlines en ∧
  first_seen en' = first_seen en ∧ last_seen en' = last_seen en ∧
  days_seen en' = days_seen en ∧ ports en' = ports en ∧
  remote_addresses en' = remote_addresses en.
Proof.
  unfold entry_results. destruct (results en !! sha256); [by intros [= <- <-]|].
  destruct (get_vt_results _ _ _ _) as [c2 [e2|r2]]; [done|]. by intros [= <- <-].
Qed.

Lemma entry_seen_fields en ctime :
  let en' := entry_seen en ctime in
  e_name en' = e_name en ∧ cmdlines en' = cmdlines en ∧
  first_seen en' = first_seen en ∧ last_seen en' = ctime ∧
  days_seen en' = days_after en ctime ∧ ports en' = ports en ∧
  remote_addresses en' = remote_addresses en ∧ results en' = results en.
Proof. unfold entry_seen, days_after. by destruct (new_day _ _). Qed.

(** What a call that returns has written. *)
Lemma update_entry_returns c en p cn sha256 ctime rdns c' en' :
  update_entry E c en p cn sha256 ctime rdns = (c', en', None) →
  e_name en' = name_after en p ∧
  (∃ en1, entry_cmdlines E (entry_name en p) p = inr en1 ∧ cmdlines en' = cmdlines en1) ∧
  first_seen en' = first_seen en ∧
  last_seen en' = ctime ∧
  days_seen en' = days_after en ctime ∧
  ports en' = ports_after en cn ∧
  remote_addresses en' = remote_after c en p cn rdns.
Proof.
  unfold update_entry.
  destruct (entry_name_fields en p) as (N1 & N2 & N3 & N4 & N5 & N6 & N7 & N8).
  destruct (entry_cmdlines E (entry_name en p) p) as [e|en1] eqn:H1; [done|].
  apply entry_cmdlines_fields in H1 as (C1 & C3 & C4 & C5 & C6 & C7 & C8).
  destruct (entry_ports_fields en1 cn) as (P1 & P2 & P3 & P4 & P5 & P6 & P7 & P8).
  destruct (entry_remote_fields c (entry_ports en1 cn) p cn rdns)
    as (R1 & R2 & R3 & R4 & R5 & R6 & R7 & R8).
  destruct (entry_results E c _ p sha256) as [c2 [e2|en4]] eqn:H4; [done|].
  apply entry_results_fields in H4 as (V1 & V2 & V3 & V4 & V5 & V6 & V7).
  destruct (entry_seen_fields en4 ctime) as (S1 & S2 & S3 & S4 & S5 & S6 & S7 & S8).
  intros [= <- <-].
  assert (Hl : last_seen en4 = last_seen en) by congruence.
  assert (Hd : days_seen en4 = days_seen en) by congruence.
  assert (Hp : ports en1 = ports en) by congruence.
  assert (Hr : remote_addresses (entry_ports en1 cn) = remote_addresses en) by congruence.
  repeat split; try congruence.
  - exists en1. split; [done|]. congruence.
  - rewrite S5. unfold days_after. by rewrite Hl, Hd.
  - rewrite S6, V6, R6, P6. unfold ports_after. by rewrite Hp.
  - rewrite S7, V7, R7. unfold remote_after. by rewrite Hr.
Qed.

(** What holds of the entry whatever the outcome. *)
Lemma update_entry_always c en p cn sha256 ctime rdns :
  let en' := (update_entry E c en p cn sha256 ctime rdns).1.2 in
  e_name en' = name_after en p ∧
  first_seen en' = first_seen en ∧
  days_seen en ≤ days_seen en' ≤ days_seen en + 1 ∧
  (days_seen en' = days_seen en + 1 →
     new_day ctime (last_seen en) = true ∧
     (update_entry E c en p cn sha256 ctime rdns).2 = None).
Proof.
  unfold update_entry.
  destruct (entry_name_fields en p) as (N1 & N2 & N3 & N4 & N5 & N6 & N7 & N8).
  destruct (entry_cmdlines E (entry_name en p) p) as [e|en1] eqn:H1; cbn [fst snd].
  { repeat split; try congruence; try lia. }
  apply entry_cmdlines_fields in H1 as (C1 & C3 & C4 & C5 & C6 & C7 & C8).
  destruct (entry_ports_fields en1 cn) as (P1 & P2 & P3 & P4 & P5 & P6 & P7 & P8).
  destruct (entry_remote_fields c (entry_ports en1 cn) p cn rdns)
    as (R1 & R2 & R3 & R4 & R5 & R6 & R7 & R8).
  destruct (entry_results E c _ p sha256) as [c2 [e2|en4]] eqn:H4; cbn [fst snd].
  { repeat split; try congruence; try lia. }
  apply entry_results_fields in H4 as (V1 & V2 & V3 & V4 & V5 & V6 & V7).
  destruct (entry_seen_fields en4 ctime) as (S1 & S2 & S3 & S4 & S5 & S6 & S7 & S8).
  assert (Hl : last_seen en4 = last_seen en) by congruence.
  assert (Hd : days_seen en4 = days_seen en) by congruence.
  unfold days_after in S5. rewrite Hl, Hd in S5.
  destruct (new_day ctime (last_seen en)); repeat split; try congruence; try lia.
Qed.

End Entry.

(** ** [# Update Processes] and [# Update Remote Addresses] at a key *)

Section Blocks.

Variable E : env.

Lemma py_in_true {A} `{EqDecision A} (x : A) l : py_in x l = true ↔ x ∈ l.
Proof. unfold py_in. apply bool_decide_eq_true. Qed.

Lemma py_in_false {A} `{EqDecision A} (x : A) l : py_in x l = false ↔ x ∉ l.
Proof. unfold py_in. apply bool_decide_eq_false. Qed.

Lemma update_processes_new s p cn sha256 ctime rdns :
  Processes s !! p_exe p = None →
  match (get_vt_results E sha256 p (Config s)).2 with
  | inl e =>
      Processes (update_processes E s p cn sha256 ctime rdns).1 = Processes s ∧
      (update_processes E s p cn sha256 ctime rdns).2 = Some e
  | inr r =>
      Processes (update_processes E s p cn sha256 ctime rdns).1 =
        <[p_exe p := created_entry E (Config s) p cn sha256 ctime rdns r]> (Processes s) ∧
      (update_processes E s p cn sha256 ctime rdns).2 = None
  end.
Proof.
  intros Hnew. unfold update_processes. rewrite Hnew.
  pose proof (get_vt_results_unlog E sha256 p (Config s)) as Hu.
  destruct (get_vt_results E sha256 p (Config s)) as [c [e|r]]; simpl in *; [done|].
  split; [|done]. f_equal. unfold created_entry.
  rewrite (not_unlogged_ext c (Config s) p cn Hu).
  by destruct (not_unlogged (Config s) p cn).
Qed.

Lemma update_processes_existing s p cn sha256 ctime rdns en :
  Processes s !! p_exe p = Some en →
  Processes (update_processes E s p cn sha256 ctime rdns).1 =
    <[p_exe p := (update_entry E (Config s) en p cn sha256 ctime rdns).1.2]> (Processes s) ∧
  (update_processes E s p cn sha256 ctime rdns).2 =
    (update_entry E (Config s) en p cn sha256 ctime rdns).2.
Proof.
  intros Hex. unfold update_processes. rewrite Hex.
  by destruct (update_entry _ _ _ _ _ _ _ _) as [[c en'] r].
Qed.

(** Entries under other keys are not touched. *)
Lemma update_processes_other s p cn sha256 ctime rdns exe :
  exe ≠ p_exe p →
  Processes (update_processes E s p cn sha256 ctime rdns).1 !! exe = Processes s !! exe.
Proof.
  intros Hne. destruct (Processes s !! p_exe p) as [en|] eqn:Hex.
  - destruct (update_processes_existing s p cn sha256 ctime rdns en Hex) as [-> _].
    by rewrite lookup_insert_ne.
  - pose proof (update_processes_new s p cn sha256 ctime rdns Hex) as H.
    destruct (get_vt_results E sha256 p (Config s)) as [c [e|r]]; simpl in H;
      destruct H as [-> _]; [done|]. by rewrite lookup_insert_ne.
Qed.

Lemma update_remote_addresses_existing s p cn ctime rdns exes :
  Remote_Addresses s !! rdns = Some exes →
  Remote_Addresses (update_remote_addresses s p cn ctime rdns) =
    if py_in (p_exe p) exes then Remote_Addresses s
    else <[rdns := exes_after (p_exe p) exes]> (Remote_Addresses s).
Proof.
  intros Hex. unfold update_remote_addresses, exes_after. rewrite Hex.
  by destruct (py_in (p_exe p) exes).
Qed.

Lemma update_remote_addresses_new s p cn ctime rdns :
  Remote_Addresses s !! rdns = None →
  Remote_Addresses (update_remote_addresses s p cn ctime rdns) =
    if not_unlogged (Config s) p cn
    then <[rdns := ["First connection: " +:+ ctime; p_exe p]]> (Remote_Addresses s)
    else Remote_Addresses s.
Proof.
  intros Hnew. unfold update_remote_addresses. rewrite Hnew.
  by destruct (not_unlogged _ _ _).
Qed.

End Blocks.

(** ** The unlog filter *)

Section Unlog.

Variable E : env.

Lemma not_unlogged_false c p cn :
  not_unlogged c p cn = false ↔ unlog_by_value c p cn.
Proof.
  unfold not_unlogged, unlog_by_value.
  rewrite andb_false_iff, !negb_false_iff, !py_in_true. done.
Qed.

Lemma not_unlogged_true c p cn :
  not_unlogged c p cn = true ↔ ¬ unlog_by_value c p cn.
Proof.
  rewrite <- not_unlogged_false. destruct (not_unlogged c p cn); naive_solver.
Qed.

(** C2 (amended). For a call of [update_snitch] that returns: if the port,
    as an int, or the process name is in ["Remote address unlog"], the
    call adds nothing to the record's remote addresses (a new record has
    none) and creates no key in [Remote Addresses]; otherwise the
    reversed-DNS address is in the record's remote addresses and is a key
    of [Remote Addresses] after the call. *)
Theorem update_snitch_unlog_by_value s p cn sha256 ctime :
  let rdns := reverse_domain_name E (reverse_dns_lookup E (ip cn)) in
  let out := update_snitch E s p cn sha256 ctime in
  out.2 = None →
  ∃ en', Processes out.1 !! p_exe p = Some en' ∧
    (unlog_by_value (Config s) p cn →
       remote_addresses en' =
         default [] (remote_addresses <$> Processes s !! p_exe p) ∧
       dom (Remote_Addresses out.1) = dom (Remote_Addresses s)) ∧
    (¬ unlog_by_value (Config s) p cn →
       rdns ∈ remote_addresses en' ∧ is_Some (Remote_Addresses out.1 !! rdns)).
Proof.
  intros rdns out Hret.
  pose proof (update_snitch_Remote_Addresses E s p cn sha256 ctime) as HR.
  destruct (update_snitch_Processes E s p cn sha256 ctime) as [HP Hr].
  fold rdns out in HR, HP, Hr. rewrite Hret in HR, Hr. symmetry in Hr.
  (* the two cases of Remote Addresses *)
  assert (HRA : (unlog_by_value (Config s) p cn →
                   dom (Remote_Addresses out.1) = dom (Remote_Addresses s)) ∧
                (¬ unlog_by_value (Config s) p cn →
                   is_Some (Remote_Addresses out.1 !! rdns))).
  { rewrite HR. destruct (Remote_Addresses s !! rdns) as [exes|] eqn:Hk.
    - rewrite (update_remote_addresses_existing s p cn ctime rdns exes Hk).
      destruct (py_in (p_exe p) exes); split; intros _; try done.
      + rewrite dom_insert_L. apply elem_of_dom_2 in Hk.
        apply set_eq. intros k. rewrite elem_of_union, elem_of_singleton.
        split; [by intros [->|?]|by right].
      + rewrite lookup_insert_eq. done.
    - rewrite (update_remote_addresses_new s p cn ctime rdns Hk).
      destruct (not_unlogged (Config s) p cn) eqn:Hf; split; intros Hu; try done.
      + apply not_unlogged_true in Hf. done.
      + rewrite lookup_insert_eq. done.
      + apply not_unlogged_false in Hf. done. }
  destruct HRA as [HRA1 HRA2].
  destruct (Processes s !! p_exe p) as [en|] eqn:Hex.
  - destruct (update_processes_existing E s p cn sha256 ctime rdns en Hex) as [HP' Hr'].
    rewrite Hr in Hr'.
    destruct (update_entry E (Config s) en p cn sha256 ctime rdns)
      as [[c' en'] r] eqn:Hen. simpl in *. subst r.
    exists en'. rewrite HP, HP', lookup_insert_eq. split; [done|].
    apply update_entry_returns in Hen as (_ & _ & _ & _ & _ & _ & Hrem).
    rewrite Hrem. unfold remote_after. split; intros Hu.
    + rewrite (proj2 (not_unlogged_false _ _ _) Hu), andb_false_r. auto.
    + rewrite (proj2 (not_unlogged_true _ _ _) Hu), andb_true_r.
      split; [|auto].
      destruct (py_in rdns (remote_addresses en)) eqn:Hin; simpl.
      * by apply py_in_true.
      * apply elem_of_app. right. apply list_elem_of_here.
  - pose proof (update_processes_new E s p cn sha256 ctime rdns Hex) as Hnew.
    destruct (get_vt_results E sha256 p (Config s)) as [c [e|r]]; simpl in Hnew;
      destruct Hnew as [HP' Hr']; [congruence|].
    eexists. rewrite HP, HP', lookup_insert_eq. split; [done|]. simpl.
    split; intros Hu.
    + rewrite (proj2 (not_unlogged_false _ _ _) Hu). auto.
    + rewrite (proj2 (not_unlogged_true _ _ _) Hu). split; [apply list_elem_of_here|auto].
Qed.

End Unlog.

(** C2, the reading by strings, fails: with unlog = ["80"] and curl
    connecting to 1.2.3.4:80 the address is recorded and the key created. *)
Lemma unlog_claim_by_string_counterexample :
  ¬ unlog_claim_by_string Sample.quiet
      (Sample.with_unlog [JStr "80"] Sample.template) Sample.curl
      (mkConn "1.2.3.4" 80) Sample.zeros Sample.monday.
Proof.
  unfold unlog_claim_by_string. intros [_ H].
  destruct H as [H _].
  { left. vm_compute. apply list_elem_of_here. }
  eapply (H _); [vm_compute; reflexivity|].
  vm_compute. apply list_elem_of_here.
Qed.

(** The amended filter at work: firefox is in the template's unlog list. *)
Lemma update_snitch_unlog_by_value_witness :
  ∃ en', Processes (update_snitch Sample.quiet Sample.template Sample.firefox
                      (mkConn "1.2.3.4" 443) Sample.zeros Sample.monday).1
           !! "/usr/bin/firefox" = Some en' ∧ remote_addresses en' = [].
Proof.
  destruct (update_snitch_unlog_by_value Sample.quiet Sample.template Sample.firefox
              (mkConn "1.2.3.4" 443) Sample.zeros Sample.monday)
    as (en' & Hen & Hf & _).
  { vm_compute. reflexivity. }
  exists en'. split; [exact Hen|].
  destruct Hf as [-> _]; [|reflexivity].
  right. vm_compute. apply list_elem_of_here.
Defined.

(** ** Names and Processes *)

Section NamesInvariant.

Variable E : env.

(** [# Update Names] only adds. *)
Lemma update_names_grows s p cn name exes :
  Names s !! name = Some exes →
  ∃ exes', Names (update_names s p cn) !! name = Some exes' ∧ exes ⊆ exes'.
Proof.
  intros Hn. unfold update_names.
  destruct (Names s !! p_name p) as [l|] eqn:Hp.
  - destruct (negb (py_in (p_exe p) l)); simpl; [|by exists exes].
    destruct (decide (name = p_name p)) as [->|Hne].
    + rewrite lookup_insert_eq. exists (l ++ [p_exe p]). split; [done|].
      assert (exes = l) as -> by congruence.
      intros x Hx. apply elem_of_app. by left.
    + rewrite lookup_insert_ne by done. by exists exes.
  - destruct (truthy_str (ip cn) || truthy_int (port cn)); simpl; [|by exists exes].
    destruct (decide (name = p_name p)) as [->|Hne]; [congruence|].
    rewrite lookup_insert_ne by done. by exists exes.
Qed.

(** With a connection, or a name that is known, the pair is in [Names]
    after the block. *)
Lemma update_names_has s p cn :
  truthy_str (ip cn) || truthy_int (port cn) = true ∨ is_Some (Names s !! p_name p) →
  ∃ exes, Names (update_names s p cn) !! p_name p = Some exes ∧ p_exe p ∈ exes.
Proof.
  intros H. unfold update_names.
  destruct (Names s !! p_name p) as [l|] eqn:Hp.
  - destruct (py_in (p_exe p) l) eqn:Hin; simpl.
    + exists l. split; [done|]. by apply py_in_true.
    + rewrite lookup_insert_eq. eexists. split; [done|].
      apply elem_of_app. right. apply list_elem_of_here.
  - destruct H as [->|[? ?]]; [|done]. simpl. rewrite lookup_insert_eq.
    eexists. split; [done|]. apply list_elem_of_here.
Qed.

(** C5 (amended). [update_snitch] keeps the invariant -- every exe of
    [Processes] is listed in [Names] under its stored name -- in every
    call where (a) if [proc["exe"]] is new, the call carries a connection
    (ip non-empty or port non-zero) or [proc["name"]] is already a key of
    [Names], and (b) if [proc["exe"]] has a record, [proc["name"]] occurs
    in the name stored for it (or the stored name extended by
    " alternative=" and [proc["name"]] is itself a key of [Names] that
    lists the exe).  This holds for every outcome of the call. *)
Theorem update_snitch_names_invariant s p cn sha256 ctime :
  names_invariant s →
  (Processes s !! p_exe p = None →
     truthy_str (ip cn) || truthy_int (port cn) = true ∨ is_Some (Names s !! p_name p)) →
  (∀ en, Processes s !! p_exe p = Some en →
     str_contains (p_name p) (e_name en) = true ∨
     ∃ exes, Names s !! (e_name en +:+ " alternative=" +:+ p_name p) = Some exes ∧
             p_exe p ∈ exes) →
  names_invariant (update_snitch E s p cn sha256 ctime).1.
Proof.
  intros Hinv Hconn Hsub exe en' Hlook.
  rewrite update_snitch_Names.
  destruct (update_snitch_Processes E s p cn sha256 ctime) as [HP Hr].
  rewrite HP in Hlook. clear HP Hr.
  set (rdns := reverse_domain_name E _) in Hlook.
  destruct (decide (exe = p_exe p)) as [->|Hne].
  - destruct (Processes s !! p_exe p) as [en|] eqn:Hex.
    + destruct (update_processes_existing E s p cn sha256 ctime rdns en Hex) as [HP _].
      rewrite HP, lookup_insert_eq in Hlook. injection Hlook as <-.
      destruct (update_entry_always E (Config s) en p cn sha256 ctime rdns) as (Hn & _).
      rewrite Hn. unfold name_after.
      destruct (str_contains (p_name p) (e_name en)) eqn:Hc.
      * destruct (Hinv _ _ Hex) as (exes & Hexes & Hin).
        destruct (update_names_grows s p cn _ _ Hexes) as (exes' & -> & Hsubl).
        exists exes'. split; [done|]. by apply Hsubl.
      * destruct (Hsub en eq_refl) as [?|(exes & Hexes & Hin)]; [congruence|].
        destruct (update_names_grows s p cn _ _ Hexes) as (exes' & -> & Hsubl).
        exists exes'. split; [done|]. by apply Hsubl.
    + pose proof (update_processes_new E s p cn sha256 ctime rdns Hex) as Hnew.
      destruct (get_vt_results E sha256 p (Config s)) as [c [e|r]]; simpl in Hnew;
        destruct Hnew as [HP _]; rewrite HP in Hlook; [congruence|].
      rewrite lookup_insert_eq in Hlook. injection Hlook as <-. simpl.
      by apply update_names_has, Hconn.
  - rewrite update_processes_other in Hlook by done.
    destruct (Hinv _ _ Hlook) as (exes & Hexes & Hin).
    destruct (update_names_grows s p cn _ _ Hexes) as (exes' & -> & Hsubl).
    exists exes'. split; [done|]. by apply Hsubl.
Qed.

End NamesInvariant.

(** The ledger after curl connected has the invariant. *)
Lemma after_curl_names_invariant : names_invariant Sample.after_curl.
Proof.
  assert (HP : Processes Sample.after_curl =
               {[ "/usr/bin/curl" := Sample.after_curl_entry ]})
    by (vm_compute; reflexivity).
  intros exe en Hl. rewrite HP in Hl.
  apply lookup_singleton_Some in Hl as [<- <-].
  exists ["/usr/bin/curl"]. split; [vm_compute; reflexivity|apply list_elem_of_here].
Qed.

(** C5 as stated fails, in two ways.  On the template ledger, which has
    the invariant, the exec-only merge of curl creates the record of
    /usr/bin/curl while [Names] stays empty.  And on the ledger after
    curl connected, which has the invariant, a connection of
    /usr/bin/curl under the name wget turns the stored name into
    "curl alternative=wget", which is no key of [Names]. *)
Lemma names_claim_counterexample :
  ¬ names_claim Sample.quiet Sample.template Sample.curl_exec (mkConn "" 0)
      Sample.zeros Sample.monday ∧
  ¬ names_claim Sample.quiet Sample.after_curl Batch.curl_as_wget (mkConn "1.2.3.4" 80)
      Sample.zeros Sample.tuesday.
Proof.
  split; unfold names_claim; intros H.
  - assert (Hinv : names_invariant Sample.template).
    { intros exe en Hl. vm_compute in Hl. discriminate. }
    specialize (H Hinv "/usr/bin/curl").
    edestruct H as (exes & Hexes & _); [vm_compute; reflexivity|].
    vm_compute in Hexes. discriminate.
  - specialize (H after_curl_names_invariant "/usr/bin/curl").
    edestruct H as (exes & Hexes & _); [vm_compute; reflexivity|].
    vm_compute in Hexes. discriminate.
Qed.

(** The amended invariant at work on the ledger after curl connected:
    /usr/bin/curl executed under the name url, without connection; url is
    no key of [Names], but it occurs in the stored name curl. *)
Lemma update_snitch_names_invariant_witness :
  names_invariant
    (update_snitch Sample.quiet Sample.after_curl Batch.curl_as_url (mkConn "" 0)
       Sample.zeros Sample.tuesday).1.
Proof.
  apply update_snitch_names_invariant.
  - exact after_curl_names_invariant.
  - intros Hl. vm_compute in Hl. discriminate.
  - intros en Hl. left.
    assert (en = Sample.after_curl_entry) as ->
      by (vm_compute in Hl; injection Hl as <-; reflexivity).
    vm_compute. reflexivity.
Defined.

(** ** [str.split()] against the specification of tokens *)

Section Tokens.

Lemma append_assoc_any (s1 s2 s3 : string) : (s1 +:+ s2) +:+ s3 = s1 +:+ (s2 +:+ s3).
Proof.
  induction s1 as [|c s1 IH]; [done|].
  change (String c ((s1 +:+ s2) +:+ s3) = String c (s1 +:+ (s2 +:+ s3))).
  by rewrite IH.
Qed.

Lemma append_empty_any (s : string) : s +:+ "" = s.
Proof.
  induction s as [|c s IH]; [done|].
  change (String c (s +:+ "") = String c s). by rewrite IH.
Qed.

Lemma rev_app_append_any (s1 s2 s3 : string) :
  String.rev_app s1 (s2 +:+ s3) = String.rev_app s1 s2 +:+ s3.
Proof.
  revert s2. induction s1 as [|c s1 IH]; intros s2; simpl; [done|].
  apply (IH (String c s2)).
Qed.

Lemma rev_app_rev_app (t u v : string) :
  String.rev_app (String.rev_app t u) v = String.rev_app u (t +:+ v).
Proof.
  revert u. induction t as [|c t IH]; intros u; [done|].
  change (String.rev_app (String.rev_app t (String c u)) v =
          String.rev_app u (String c (t +:+ v))).
  by rewrite IH.
Qed.

Lemma rev_rev_app (t : string) : String.rev (String.rev_app t "") = t.
Proof.
  unfold String.rev. rewrite rev_app_rev_app.
  change (t +:+ "" = t). induction t as [|c t IH]; [done|].
  change (String c (t +:+ "") = String c t). by rewrite IH.
Qed.

Lemma rev_app_truthy (t cur : string) :
  t ≠ "" ∨ cur ≠ "" → truthy_str (String.rev_app t cur) = true.
Proof.
  revert cur. induction t as [|c t IH]; intros cur H; simpl.
  - destruct H as [?|?]; [done|]. by destruct cur.
  - apply IH. by right.
Qed.

Lemma split_ws_go_spaces sp s :
  spaces sp = true → split_ws_go "" (sp +:+ s) = split_ws_go "" s.
Proof.
  induction sp as [|c sp IH]; intros Hsp; [done|].
  simpl in Hsp. apply andb_true_iff in Hsp as [Hc Hsp].
  change (split_ws_go "" (String c (sp +:+ s)) = split_ws_go "" s).
  simpl. rewrite Hc. simpl. by apply IH.
Qed.

Lemma split_ws_go_spaceless t cur s :
  spaceless t = true →
  split_ws_go cur (t +:+ s) = split_ws_go (String.rev_app t cur) s.
Proof.
  revert cur. induction t as [|c t IH]; intros cur Ht; [done|].
  simpl in Ht. apply andb_true_iff in Ht as [Hc Ht]. apply negb_true_iff in Hc.
  change (split_ws_go cur (String c (t +:+ s)) =
          split_ws_go (String.rev_app t (String c cur)) s).
  simpl. rewrite Hc. by apply IH.
Qed.

Lemma split_ws_go_end cur rest :
  truthy_str cur = true →
  rest = "" ∨ starts_with_space rest = true →
  split_ws_go cur rest = String.rev cur :: split_ws_go "" rest.
Proof.
  intros Hcur [->|Hsp]; simpl; [by rewrite Hcur|].
  destruct rest as [|c rest]; [done|]. simpl in *. by rewrite Hsp, Hcur.
Qed.

(** Whatever way [s] is cut into tokens by the specification,
    [s.split()] returns these tokens. *)
Lemma tokens_of_split_ws s ts : tokens_of s ts → split_ws s = ts.
Proof.
  unfold split_ws. induction 1 as [sp Hsp|sp t rest ts Hsp Ht Hless Hrest _ IH].
  - pose proof (split_ws_go_spaces sp "" Hsp) as H0.
    rewrite append_empty_any in H0. exact H0.
  - rewrite split_ws_go_spaces by done.
    rewrite split_ws_go_spaceless by done.
    rewrite split_ws_go_end; [|apply rev_app_truthy; by left|done].
    by rewrite rev_rev_app, IH.
Qed.

Lemma spaceless_rev_app t cur :
  spaceless t = true → spaceless cur = true → spaceless (String.rev_app t cur) = true.
Proof.
  revert cur. induction t as [|c t IH]; intros cur Ht Hcur; [done|].
  simpl in Ht. apply andb_true_iff in Ht as [Hc Ht].
  simpl. apply IH; [done|]. simpl. by rewrite Hc.
Qed.

Lemma tokens_of_space c s ts :
  py_isspace c = true → tokens_of s ts → tokens_of (String c s) ts.
Proof.
  intros Hc [sp Hsp|sp t rest ts' Hsp Ht Hless Hrest Hts].
  - apply tokens_of_nil. simpl. by rewrite Hc.
  - apply (tokens_of_cons (String c sp) t rest ts'); try done.
    simpl. by rewrite Hc.
Qed.

Lemma split_ws_go_tokens cur s :
  spaceless cur = true →
  tokens_of (String.rev cur +:+ s) (split_ws_go cur s).
Proof.
  revert cur. induction s as [|c s IH]; intros cur Hcur.
  - simpl. destruct (truthy_str cur) eqn:Ht.
    + apply (tokens_of_cons "" (String.rev cur) "" []); try done.
      * intros Hnil. assert (Hr : truthy_str (String.rev cur) = true)
          by (apply rev_app_truthy; left; by destruct cur).
        by rewrite Hnil in Hr.
      * by apply spaceless_rev_app.
      * by left.
      * by apply tokens_of_nil.
    + destruct cur; [|done]. by apply tokens_of_nil.
  - simpl. destruct (py_isspace c) eqn:Hc.
    + specialize (IH "" eq_refl). change (String.rev "" +:+ s) with s in IH.
      destruct (truthy_str cur) eqn:Ht.
      * apply (tokens_of_cons "" (String.rev cur) (String c s)); try done.
        -- intros Hnil. assert (Hr : truthy_str (String.rev cur) = true)
             by (apply rev_app_truthy; left; by destruct cur).
           by rewrite Hnil in Hr.
        -- by apply spaceless_rev_app.
        -- right. done.
        -- by apply tokens_of_space.
      * destruct cur; [|done]. simpl. by apply tokens_of_space.
    + specialize (IH (String c cur)). simpl in IH. rewrite Hc in IH.
      specialize (IH Hcur).
      replace (String.rev cur +:+ String c s) with (String.rev (String c cur) +:+ s);
        [done|].
      unfold String.rev. simpl.
      change (String c "") with ("" +:+ String c "") at 1.
      rewrite (rev_app_append_any cur "" (String c "")).
      rewrite append_assoc_any. done.
Qed.

(** Every str is cut into tokens by the specification, and [s.split()]
    is that cut. *)
Lemma split_ws_tokens_of s : tokens_of s (split_ws s).
Proof. apply (split_ws_go_tokens "" s eq_refl). Qed.

(** The tokens of a str are unique: the specification and [s.split()]
    are the same thing. *)
Lemma tokens_of_iff s ts : tokens_of s ts ↔ split_ws s = ts.
Proof.
  split; [apply tokens_of_split_ws|]. intros <-. apply split_ws_tokens_of.
Qed.

(** The day tokens of the code are the first three tokens. *)
Lemma day_tokens_tokens_of s ts : tokens_of s ts → day_tokens s = take 3 ts.
Proof. intros H. unfold day_tokens. by rewrite (tokens_of_split_ws s ts H). Qed.

End Tokens.

(** ** The day counter *)

Section Days.

Variable E : env.

Lemma new_day_true ctime last :
  new_day ctime last = true ↔ day_tokens ctime ≠ day_tokens last.
Proof. unfold new_day. by rewrite negb_true_iff, bool_decide_eq_false. Qed.

Lemma new_day_false ctime last :
  new_day ctime last = false ↔ day_tokens ctime = day_tokens last.
Proof. unfold new_day. by rewrite negb_false_iff, bool_decide_eq_true. Qed.

(** The day counter through the day tokens as the code computes them. *)
Lemma update_snitch_days_seen_code s p cn sha256 ctime en :
  Processes s !! p_exe p = Some en →
  let out := update_snitch E s p cn sha256 ctime in
  ∃ en', Processes out.1 !! p_exe p = Some en' ∧
    (out.2 = None →
       (days_seen en' = days_seen en + 1 ↔
          day_tokens ctime ≠ day_tokens (last_seen en)) ∧
       (days_seen en' = days_seen en ↔
          day_tokens ctime = day_tokens (last_seen en)) ∧
       last_seen en' = ctime) ∧
    (days_seen en' = days_seen en + 1 →
       day_tokens ctime ≠ day_tokens (last_seen en)) ∧
    days_seen en ≤ days_seen en' ≤ days_seen en + 1 ∧
    (∀ exe e0, Processes s !! exe = Some e0 →
       ∃ e0', Processes out.1 !! exe = Some e0' ∧ days_seen e0 ≤ days_seen e0').
Proof.
  intros Hex out.
  destruct (update_snitch_Processes E s p cn sha256 ctime) as [HP Hr].
  fold out in HP, Hr. set (rdns := reverse_domain_name E _) in HP, Hr.
  destruct (update_processes_existing E s p cn sha256 ctime rdns en Hex) as [HP' Hr'].
  destruct (update_entry_always E (Config s) en p cn sha256 ctime rdns)
    as (_ & _ & Hbound & Hinc).
  set (en' := (update_entry E (Config s) en p cn sha256 ctime rdns).1.2) in *.
  exists en'. split; [by rewrite HP, HP', lookup_insert_eq|].
  split; [|split; [|split; [done|]]].
  - intros Hret. rewrite Hr, Hr' in Hret.
    destruct (update_entry E (Config s) en p cn sha256 ctime rdns)
      as [[c1 en1] r] eqn:Hen. simpl in Hret, en'. subst r en'.
    apply update_entry_returns in Hen as (_ & _ & _ & Hlast & Hdays & _).
    rewrite Hdays. unfold days_after.
    destruct (new_day ctime (last_seen en)) eqn:Hnd.
    + apply new_day_true in Hnd. repeat split; try done; intros; lia.
    + apply new_day_false in Hnd. repeat split; try done; intros; lia.
  - intros Hd. apply new_day_true. by apply Hinc.
  - intros exe e0 He0. destruct (decide (exe = p_exe p)) as [->|Hne].
    + exists en'. rewrite HP, HP', lookup_insert_eq. split; [done|].
      assert (e0 = en) as -> by congruence. lia.
    + exists e0. rewrite HP, update_processes_other by done. split; [done|lia].
Qed.

(** C7. A call of [update_snitch] on an exe that has a record, with the
    stored ["last seen"] cut into its whitespace-separated tokens
    [old_tokens] and the timestamp of the call into [new_tokens]: when
    the call returns, ["days seen"] has grown by exactly 1 if and only if
    the first three tokens differ, and is unchanged if and only if they
    agree; whatever the outcome, it grows by 1 only if the first three
    tokens differ, it grows by at most 1, and no record's counter
    decreases. *)
Theorem update_snitch_days_seen s p cn sha256 ctime en new_tokens old_tokens :
  Processes s !! p_exe p = Some en →
  tokens_of ctime new_tokens →
  tokens_of (last_seen en) old_tokens →
  let out := update_snitch E s p cn sha256 ctime in
  ∃ en', Processes out.1 !! p_exe p = Some en' ∧
    (out.2 = None →
       (days_seen en' = days_seen en + 1 ↔ take 3 new_tokens ≠ take 3 old_tokens) ∧
       (days_seen en' = days_seen en ↔ take 3 new_tokens = take 3 old_tokens) ∧
       last_seen en' = ctime) ∧
    (days_seen en' = days_seen en + 1 → take 3 new_tokens ≠ take 3 old_tokens) ∧
    days_seen en ≤ days_seen en' ≤ days_seen en + 1 ∧
    (∀ exe e0, Processes s !! exe = Some e0 →
       ∃ e0', Processes out.1 !! exe = Some e0' ∧ days_seen e0 ≤ days_seen e0').
Proof.
  intros Hex Hnew Hold out.
  destruct (update_snitch_days_seen_code s p cn sha256 ctime en Hex)
    as (en' & Hen & Hret & Hinc & Hbound & Hall).
  fold out in Hen, Hret, Hinc, Hall.
  rewrite (day_tokens_tokens_of ctime new_tokens Hnew) in Hret, Hinc.
  rewrite (day_tokens_tokens_of (last_seen en) old_tokens Hold) in Hret, Hinc.
  exists en'. split; [exact Hen|]. split; [exact Hret|]. split; [exact Hinc|].
  split; [exact Hbound|exact Hall].
Qed.

(** Two calls in a row for the same exe, both returning: the counter
    after the second is one more than after the first exactly when the
    day tokens of the two timestamps differ. *)
Lemma update_snitch_twice_days_seen s p1 cn1 sha1 ctime1 p2 cn2 sha2 ctime2 :
  p_exe p2 = p_exe p1 →
  let out1 := update_snitch E s p1 cn1 sha1 ctime1 in
  let out2 := update_snitch E out1.1 p2 cn2 sha2 ctime2 in
  out1.2 = None → out2.2 = None →
  ∃ en1 en2,
    Processes out1.1 !! p_exe p1 = Some en1 ∧
    Processes out2.1 !! p_exe p1 = Some en2 ∧
    (days_seen en2 = days_seen en1 + 1 ↔ day_tokens ctime2 ≠ day_tokens ctime1) ∧
    (days_seen en2 = days_seen en1 ↔ day_tokens ctime2 = day_tokens ctime1).
Proof.
  intros Hexe out1 out2 Hret1 Hret2.
  assert (H1 : ∃ en1, Processes out1.1 !! p_exe p1 = Some en1 ∧ last_seen en1 = ctime1).
  { destruct (update_snitch_Processes E s p1 cn1 sha1 ctime1) as [HP Hr].
    fold out1 in HP, Hr. set (rdns := reverse_domain_name E _) in HP, Hr.
    rewrite Hret1 in Hr. symmetry in Hr.
    destruct (Processes s !! p_exe p1) as [en|] eqn:Hex.
    - destruct (update_processes_existing E s p1 cn1 sha1 ctime1 rdns en Hex) as [HP' Hr'].
      rewrite Hr in Hr'.
      destruct (update_entry E (Config s) en p1 cn1 sha1 ctime1 rdns)
        as [[c1 en1] r] eqn:Hen. simpl in *. subst r.
      exists en1. rewrite HP, HP', lookup_insert_eq. split; [done|].
      by apply update_entry_returns in Hen as (_ & _ & _ & Hlast & _).
    - pose proof (update_processes_new E s p1 cn1 sha1 ctime1 rdns Hex) as Hnew.
      destruct (get_vt_results E sha1 p1 (Config s)) as [c [e|r]]; simpl in Hnew;
        destruct Hnew as [HP' Hr']; [congruence|].
      eexists. rewrite HP, HP', lookup_insert_eq. done. }
  destruct H1 as (en1 & Hen1 & Hlast1).
  rewrite <- Hexe in Hen1.
  destruct (update_snitch_days_seen_code out1.1 p2 cn2 sha2 ctime2 en1 Hen1)
    as (en2 & Hen2 & Hiff & _).
  fold out2 in Hen2, Hiff. destruct (Hiff Hret2) as (Hi1 & Hi2 & _).
  rewrite Hlast1 in Hi1, Hi2. rewrite Hexe in Hen1, Hen2.
  by exists en1, en2.
Qed.

End Days.

(** On the record of curl, last seen on Monday at 23:59:59: seen again
    on Tuesday at 00:00:01 it has two days, seen again on Monday at noon
    it still has one. *)
Lemma update_snitch_days_seen_witness :
  (∃ en', Processes (update_snitch Sample.quiet Sample.after_curl Sample.curl
                       (mkConn "1.2.3.4" 80) Sample.zeros Sample.tuesday).1
            !! "/usr/bin/curl" = Some en' ∧ days_seen en' = 2) ∧
  (∃ en', Processes (update_snitch Sample.quiet Sample.after_curl Sample.curl
                       (mkConn "1.2.3.4" 80) Sample.zeros Batch.monday_noon).1
            !! "/usr/bin/curl" = Some en' ∧ days_seen en' = 1).
Proof.
  assert (Hex : Processes Sample.after_curl !! p_exe Sample.curl =
                Some (Sample.after_curl_entry)).
  { vm_compute. reflexivity. }
  split.
  - destruct (update_snitch_days_seen Sample.quiet Sample.after_curl Sample.curl
                (mkConn "1.2.3.4" 80) Sample.zeros Sample.tuesday _
                ["Tue"; "Jan"; "2"; "00:00:01"; "2024"]
                ["Mon"; "Jan"; "1"; "23:59:59"; "2024"] Hex
                (split_ws_tokens_of Sample.tuesday) (split_ws_tokens_of Sample.monday))
      as (en' & Hen & Hret & _).
    exists en'. split; [exact Hen|].
    destruct Hret as ((_ & Hinc) & _); [vm_compute; reflexivity|].
    rewrite Hinc; [reflexivity|]. discriminate.
  - destruct (update_snitch_days_seen Sample.quiet Sample.after_curl Sample.curl
                (mkConn "1.2.3.4" 80) Sample.zeros Batch.monday_noon _
                ["Mon"; "Jan"; "1"; "12:00:00"; "2024"]
                ["Mon"; "Jan"; "1"; "23:59:59"; "2024"] Hex
                (split_ws_tokens_of Batch.monday_noon) (split_ws_tokens_of Sample.monday))
      as (en' & Hen & Hret & _).
    exists en'. split; [exact Hen|].
    destruct Hret as (_ & (_ & Hsame) & _); [vm_compute; reflexivity|].
    rewrite Hsame; reflexivity.
Defined.

(** ** An existing key of Remote Addresses *)

Section RemoteKey.

Variable E : env.

Lemma elem_of_py_insert {A} (i : nat) (x y : A) (l : list A) :
  x ∈ py_insert i y l ↔ x = y ∨ x ∈ l.
Proof.
  unfold py_insert. rewrite <- (take_drop i l) at 3.
  rewrite !elem_of_app, elem_of_cons. tauto.
Qed.

(** C9. When the reversed-DNS key already exists in [Remote Addresses]
    and [proc["exe"]] is not in its list, a call that returns has done
    [insert(1, exe)] on that list (and dropped the polling sentinel),
    whatever ["Remote address unlog"] holds: the filter is not consulted
    on this path.  On a list whose head is not the sentinel the exe is at
    position 1. *)
Theorem update_snitch_existing_remote_key s p cn sha256 ctime exes :
  let rdns := reverse_domain_name E (reverse_dns_lookup E (ip cn)) in
  let out := update_snitch E s p cn sha256 ctime in
  out.2 = None →
  Remote_Addresses s !! rdns = Some exes →
  p_exe p ∉ exes →
  Remote_Addresses out.1 = <[rdns := exes_after (p_exe p) exes]> (Remote_Addresses s) ∧
  (no_processes_found ∉ exes → p_exe p ≠ no_processes_found →
     exes_after (p_exe p) exes = py_insert 1 (p_exe p) exes) ∧
  (∀ x rest, exes = x :: rest → x ≠ no_processes_found →
     p_exe p ≠ no_processes_found →
     exes_after (p_exe p) exes !! 1%nat = Some (p_exe p)).
Proof.
  intros rdns out Hret Hkey Hnin.
  pose proof (update_snitch_Remote_Addresses E s p cn sha256 ctime) as HR.
  fold rdns out in HR. rewrite Hret in HR.
  rewrite HR, (update_remote_addresses_existing s p cn ctime rdns exes Hkey).
  rewrite (proj2 (py_in_false _ _) Hnin).
  split; [done|]. split.
  - intros Hs Hne. unfold exes_after.
    destruct (py_in no_processes_found (py_insert 1 (p_exe p) exes)) eqn:Hin; [|done].
    apply py_in_true, elem_of_py_insert in Hin as [Hin|Hin]; [congruence|done].
  - intros x rest -> Hx Hne. unfold exes_after, py_insert. simpl.
    destruct (py_in _ _); [|done]. simpl.
    destruct (decide (x = no_processes_found)); [done|]. simpl.
    destruct (decide (p_exe p = no_processes_found)); done.
Qed.

End RemoteKey.

(** firefox is in the unlog list of the template, and still joins the
    list of 1.2.3.4 that curl created. *)
Lemma update_snitch_existing_remote_key_witness :
  Remote_Addresses
    (update_snitch Sample.quiet Sample.after_curl Sample.firefox (mkConn "1.2.3.4" 443)
       Sample.zeros Sample.monday).1 !! "1.2.3.4" =
  Some ["First connection: " +:+ Sample.monday; "/usr/bin/firefox"; "/usr/bin/curl"].
Proof.
  destruct (update_snitch_existing_remote_key Sample.quiet Sample.after_curl
              Sample.firefox (mkConn "1.2.3.4" 443) Sample.zeros Sample.monday
              ["First connection: " +:+ Sample.monday; "/usr/bin/curl"])
    as (-> & _).
  - vm_compute. reflexivity.
  - vm_compute. reflexivity.
  - apply (proj1 (py_in_false _ _)). vm_compute. reflexivity.
  - vm_compute. reflexivity.
Defined.

(** ** Ports, and the port 0 of an exec-only event *)

Section Ports.

Variable E : env.

(** The ports of the record after a call that returns, for any port. *)
Lemma update_snitch_ports s p cn sha256 ctime :
  let out := update_snitch E s p cn sha256 ctime in
  out.2 = None →
  ∃ en', Processes out.1 !! p_exe p = Some en' ∧
    ports en' = match Processes s !! p_exe p with
                | Some en => ports_after en cn
                | None => [port cn]
                end.
Proof.
  intros out Hret.
  destruct (update_snitch_Processes E s p cn sha256 ctime) as [HP Hr].
  fold out in HP, Hr. set (rdns := reverse_domain_name E _) in HP, Hr.
  rewrite Hret in Hr. symmetry in Hr.
  destruct (Processes s !! p_exe p) as [en|] eqn:Hex.
  - destruct (update_processes_existing E s p cn sha256 ctime rdns en Hex) as [HP' Hr'].
    rewrite Hr in Hr'.
    destruct (update_entry E (Config s) en p cn sha256 ctime rdns)
      as [[c1 en1] r] eqn:Hen. simpl in *. subst r.
    exists en1. rewrite HP, HP', lookup_insert_eq. split; [done|].
    by apply update_entry_returns in Hen as (_ & _ & _ & _ & _ & Hports & _).
  - pose proof (update_processes_new E s p cn sha256 ctime rdns Hex) as Hnew.
    destruct (get_vt_results E sha256 p (Config s)) as [c [e|r]]; simpl in Hnew;
      destruct Hnew as [HP' Hr']; [congruence|].
    eexists. rewrite HP, HP', lookup_insert_eq. done.
Qed.

Lemma sort_int_Sorted l : Sorted Z.le (sort_int l).
Proof. unfold sort_int. apply (Sorted_merge_sort _). Qed.

Lemma elem_of_sort_int x l : x ∈ sort_int l ↔ x ∈ l.
Proof. unfold sort_int. by rewrite merge_sort_Permutation. Qed.

Lemma elem_of_ports_after en cn : port cn ∈ ports_after en cn.
Proof.
  unfold ports_after. destruct (py_in (port cn) (ports en)) eqn:Hin.
  - by apply py_in_true.
  - apply elem_of_sort_int, elem_of_app. right. apply list_elem_of_here.
Qed.

(** C10. An exec item of [pending_list] is merged with the conn of empty
    ip and port 0, and a call of [update_snitch] with that conn which
    returns treats 0 as it treats any port: a new record has ports [0];
    an existing record keeps its ports if 0 is among them and otherwise
    gets them sorted with 0 added.  The connect probe itself submits no
    v4 or v6 event with destination port 0; a conn event of port 0 on the
    queue is one of another address family, with an empty ip. *)
Theorem update_snitch_exec_only_port s p sha256 ctime :
  let exec_only := {| ip := ""; port := 0 |} in
  let out := update_snitch E s p exec_only sha256 ctime in
  p_type p = TExec →
  out.2 = None →
  conn_of p = inr exec_only ∧
  (∃ en', Processes out.1 !! p_exe p = Some en' ∧
     ports en' = match Processes s !! p_exe p with
                 | Some en => ports_after en exec_only
                 | None => [0]
                 end ∧
     0 ∈ ports en' ∧
     (∀ en, Processes s !! p_exe p = Some en →
        (0 ∈ ports en → ports en' = ports en) ∧
        (0 ∉ ports en → ports en' = sort_int (ports en ++ [0]) ∧ Sorted Z.le (ports en')))) ∧
  (∀ pid af daddr sin_port ev,
     Bpf.security_socket_connect_entry pid af daddr sin_port = Some ev →
     match ev with
     | Bpf.Ipv4 _ _ dport | Bpf.Ipv6 _ _ dport => dport ≠ 0
     | Bpf.Other _ _ => ∀ ntop4 ntop6,
         p_ip (Bpf.queue_event ntop4 ntop6 ev) = "" ∧
         p_port (Bpf.queue_event ntop4 ntop6 ev) = 0
     end).
Proof.
  intros exec_only out Htype Hret. split; [|split].
  - unfold conn_of. by rewrite Htype.
  - destruct (update_snitch_ports s p exec_only sha256 ctime Hret) as (en' & Hen' & Hports).
    fold out in Hen'. exists en'. split; [done|]. split; [done|]. split.
    + rewrite Hports. destruct (Processes s !! p_exe p) as [en|].
      * apply (elem_of_ports_after en exec_only).
      * apply list_elem_of_here.
    + intros en Hex. rewrite Hex in Hports. rewrite Hports. unfold ports_after. simpl.
      split; intros H0.
      * by rewrite (proj2 (py_in_true _ _) H0).
      * rewrite (proj2 (py_in_false _ _) H0). split; [done|]. apply sort_int_Sorted.
  - intros pid af daddr sin_port ev. unfold Bpf.security_socket_connect_entry.
    destruct (Z.eqb af Bpf.AF_INET).
    { destruct (Z.eqb (Bpf.ntohs sin_port) 0) eqn:Hz; simpl; [done|].
      intros [= <-]. by apply Z.eqb_neq. }
    destruct (Z.eqb af Bpf.AF_INET6).
    { destruct (Z.eqb (Bpf.ntohs sin_port) 0) eqn:Hz; simpl; [done|].
      intros [= <-]. by apply Z.eqb_neq. }
    destruct (negb _ && negb _); [|done]. by intros [= <-].
Qed.

End Ports.

(** The exec-only merge of curl on the template ledger leaves ports [0]. *)
Lemma update_snitch_exec_only_port_witness :
  ∃ en', Processes (update_snitch Sample.quiet Sample.template Sample.curl_exec
                      (mkConn "" 0) Sample.zeros Sample.monday).1
           !! "/usr/bin/curl" = Some en' ∧ ports en' = [0].
Proof.
  destruct (update_snitch_exec_only_port Sample.quiet Sample.template Sample.curl_exec
              Sample.zeros Sample.monday)
    as (_ & (en' & Hen & Hports & _) & _).
  - reflexivity.
  - vm_compute. reflexivity.
  - exists en'. split; [exact Hen|exact Hports].
Defined.

(** ** The cmdlines of a record *)

Section Cmdlines.

Variable E : env.

Implicit Types (l : list string) (x cp : string).

Lemma py_count_cons_eq x l : py_count x (x :: l) = S (py_count x l).
Proof. unfold py_count. by rewrite filter_cons_True. Qed.

Lemma py_count_cons_ne x y l : y ≠ x → py_count x (y :: l) = py_count x l.
Proof. intros. unfold py_count. by rewrite filter_cons_False. Qed.

Lemma py_count_le_length x l : (py_count x l ≤ length l)%nat.
Proof. unfold py_count. apply length_filter. Qed.

Lemma py_count_remove x l : py_count x (py_remove x l) = pred (py_count x l).
Proof.
  induction l as [|y l IH]; [done|]. simpl.
  destruct (decide (y = x)) as [->|Hne].
  - by rewrite py_count_cons_eq.
  - by rewrite !py_count_cons_ne.
Qed.

Lemma length_py_remove x l : (length (py_remove x l) ≤ length l)%nat.
Proof.
  induction l as [|y l IH]; [done|]. simpl.
  destruct (decide (y = x)); simpl; lia.
Qed.

Lemma others_remove x l : others x (py_remove x l) = others x l.
Proof.
  unfold others. induction l as [|y l IH]; [done|]. simpl.
  destruct (decide (y = x)) as [->|Hne].
  - by rewrite filter_cons_False by (intros H; by apply H).
  - by rewrite !filter_cons_True, IH.
Qed.

Lemma NoDup_others_count x l :
  NoDup l ↔ NoDup (others x l) ∧ (py_count x l ≤ 1)%nat.
Proof.
  unfold others. induction l as [|y l IH].
  { split; [|constructor]. intros _. split; [constructor|]. unfold py_count. simpl. lia. }
  rewrite NoDup_cons, IH. destruct (decide (y = x)) as [->|Hne].
  - rewrite py_count_cons_eq, filter_cons_False by (intros H; by apply H).
    assert (x ∉ l ↔ py_count x l = 0%nat) as ->.
    { unfold py_count. split.
      - intros Hnin. destruct (filter (λ y, y = x) l) as [|z k] eqn:Hf; [done|].
        assert (Hz : z ∈ filter (λ y, y = x) l) by (rewrite Hf; apply list_elem_of_here).
        apply list_elem_of_filter in Hz as [-> Hz]. done.
      - intros Hlen Hin.
        assert (Hx : x ∈ filter (λ y, y = x) l) by (by apply list_elem_of_filter).
        destruct (filter (λ y, y = x) l); [by apply not_elem_of_nil in Hx|done]. }
    split; [intros (? & ? & ?); split; [done|lia]|intros (? & ?); split; [lia|]; split; [done|lia]].
  - rewrite py_count_cons_ne, filter_cons_True, NoDup_cons by done.
    rewrite list_elem_of_filter. tauto.
Qed.

(** Overwriting a cell with [cp] leaves the other strs a sublist. *)
Lemma others_insert cp (i : nat) l :
  others cp (<[i := cp]> l) `sublist_of` others cp l.
Proof.
  unfold others. revert i. induction l as [|y l IH]; intros i; [done|].
  destruct i as [|i]; simpl.
  - rewrite filter_cons_False by (intros H; by apply H).
    destruct (decide (y = cp)) as [->|Hne].
    + by rewrite filter_cons_False by (intros H; by apply H).
    + rewrite filter_cons_True by done. by apply sublist_cons.
  - destruct (decide (y = cp)) as [->|Hne].
    + rewrite !filter_cons_False by (intros H; by apply H). apply IH.
    + rewrite !filter_cons_True by done. apply sublist_skip, IH.
Qed.

(** The [while] loop with fuel for every occurrence leaves at most one. *)
Lemma remove_extra_spec (fuel : nat) cp l :
  (py_count cp l ≤ S fuel)%nat →
  (py_count cp (remove_extra fuel cp l) ≤ 1)%nat ∧
  others cp (remove_extra fuel cp l) = others cp l ∧
  (length (remove_extra fuel cp l) ≤ length l)%nat.
Proof.
  revert l. induction fuel as [|fuel IH]; intros l Hc; simpl.
  { split; [lia|]. split; [done|lia]. }
  case_bool_decide as Hgt; [|split; [lia|]; split; [done|lia]].
  destruct (IH (py_remove cp l)) as (H1 & H2 & H3).
  { rewrite py_count_remove. lia. }
  pose proof (length_py_remove cp l).
  split; [done|]. split; [|lia]. by rewrite H2, others_remove.
Qed.

(** The loop as called, with [length l] turns of fuel, has run to its end. *)
Lemma remove_extra_done cp l :
  (py_count cp (remove_extra (length l) cp l) ≤ 1)%nat.
Proof.
  apply remove_extra_spec. pose proof (py_count_le_length cp l). lia.
Qed.

(** [get_common_pattern] adds at most one str and keeps the list free of
    duplicates. *)
Lemma get_common_pattern_spec a l cutoff l' :
  get_common_pattern E a l cutoff = inr l' →
  (length l' ≤ length l + 1)%nat ∧ (a ∉ l → NoDup l → NoDup l').
Proof.
  unfold get_common_pattern.
  destruct (get_close_matches E a l 1 cutoff) as [|b0 bs].
  { intros [= <-]. rewrite length_app. simpl. split; [lia|].
    intros Hnin Hnd. apply NoDup_app. repeat split; [done| |apply NoDup_singleton].
    intros x Hx ->%list_elem_of_singleton. done. }
  set (cp := foldl _ _ _).
  destruct (py_index b0 l) as [i|]; [|done]. intros [= <-].
  destruct (remove_extra_spec (length (<[i:=cp]> l)) cp (<[i:=cp]> l)) as (H1 & H2 & H3).
  { pose proof (py_count_le_length cp (<[i:=cp]> l)). lia. }
  rewrite length_insert in H3 at 2. split; [lia|].
  intros _ Hnd. apply (NoDup_others_count cp). split; [|done].
  rewrite H2. eapply sublist_NoDup; [|apply others_insert].
  by apply (NoDup_others_count cp) in Hnd as [Hnd _].
Qed.

Lemma sort_str_Sorted l : Sorted String.le (sort_str l).
Proof. unfold sort_str. apply (Sorted_merge_sort _). Qed.

Lemma sort_str_Permutation l : sort_str l ≡ₚ l.
Proof. unfold sort_str. apply merge_sort_Permutation. Qed.

(** C8. A call of [update_snitch] that returns, for an exe with a record
    and a cmdline that is not yet in the record's list: the new list is
    what [get_common_pattern] with cutoff 0.8 made of the old one, sorted;
    it is at most one longer than the old one, it is sorted, and it has no
    duplicate when the old one had none. *)
Theorem update_snitch_cmdlines s p cn sha256 ctime en :
  let a := str_cmdline E (p_cmdline p) in
  let out := update_snitch E s p cn sha256 ctime in
  Processes s !! p_exe p = Some en →
  a ∉ cmdlines en →
  NoDup (cmdlines en) →
  out.2 = None →
  ∃ en' l,
    Processes out.1 !! p_exe p = Some en' ∧
    get_common_pattern E a (cmdlines en) (8 # 10) = inr l ∧
    cmdlines en' = sort_str l ∧
    (length (cmdlines en') ≤ length (cmdlines en) + 1)%nat ∧
    Sorted String.le (cmdlines en') ∧
    NoDup (cmdlines en').
Proof.
  intros a out Hex Hnin Hnd Hret.
  destruct (update_snitch_Processes E s p cn sha256 ctime) as [HP Hr].
  fold out in HP, Hr. set (rdns := reverse_domain_name E _) in HP, Hr.
  rewrite Hret in Hr. symmetry in Hr.
  destruct (update_processes_existing E s p cn sha256 ctime rdns en Hex) as [HP' Hr'].
  rewrite Hr in Hr'.
  destruct (update_entry E (Config s) en p cn sha256 ctime rdns)
    as [[c1 en1] r] eqn:Hen. simpl in *. subst r.
  apply update_entry_returns in Hen as (_ & (en0 & Hcmd & Hl) & _).
  unfold entry_cmdlines in Hcmd.
  destruct (entry_name_fields en p) as (_ & Hc & _). rewrite Hc in Hcmd.
  fold a in Hcmd. rewrite (proj2 (py_in_false _ _) Hnin) in Hcmd. simpl in Hcmd.
  destruct (get_common_pattern E a (cmdlines en) (8 # 10)) as [e|l] eqn:Hg; [done|].
  injection Hcmd as <-. simpl in Hl.
  destruct (get_common_pattern_spec _ _ _ _ Hg) as [Hlen Hnd'].
  exists en1, l. rewrite HP, HP', lookup_insert_eq, Hl.
  repeat split; try done.
  - by rewrite sort_str_Permutation.
  - apply sort_str_Sorted.
  - rewrite sort_str_Permutation. by apply Hnd'.
Qed.

(** The records that [update_snitch] writes never get a duplicate
    cmdline: the absence of duplicates is kept by every call, whatever
    its outcome, and holds of the empty ledger. *)
Lemma update_snitch_cmdlines_nodup s p cn sha256 ctime :
  cmdlines_nodup s → cmdlines_nodup (update_snitch E s p cn sha256 ctime).1.
Proof.
  intros Hinv exe en' Hlook.
  destruct (update_snitch_Processes E s p cn sha256 ctime) as [HP _].
  rewrite HP in Hlook. clear HP.
  set (rdns := reverse_domain_name E _) in Hlook.
  destruct (decide (exe = p_exe p)) as [->|Hne];
    [|rewrite update_processes_other in Hlook by done; by eapply Hinv].
  destruct (Processes s !! p_exe p) as [en|] eqn:Hex.
  - destruct (update_processes_existing E s p cn sha256 ctime rdns en Hex) as [HP _].
    rewrite HP, lookup_insert_eq in Hlook. injection Hlook as <-.
    pose proof (Hinv _ _ Hex) as Hnd.
    unfold update_entry.
    destruct (entry_name_fields en p) as (_ & Hc & _).
    destruct (entry_cmdlines E (entry_name en p) p) as [e|en1] eqn:H1; cbn [fst snd].
    { by rewrite Hc. }
    assert (Hnd1 : NoDup (cmdlines en1)).
    { unfold entry_cmdlines in H1. rewrite Hc in H1.
      destruct (py_in _ (cmdlines en)) eqn:Hin; simpl in H1.
      - injection H1 as <-. by rewrite Hc.
      - destruct (get_common_pattern E _ (cmdlines en) _) as [e|l] eqn:Hg; [done|].
        injection H1 as <-. simpl. rewrite sort_str_Permutation.
        apply (get_common_pattern_spec _ _ _ _ Hg); [by apply py_in_false|done]. }
    destruct (entry_ports_fields en1 cn) as (_ & P2 & _).
    destruct (entry_remote_fields (Config s) (entry_ports en1 cn) p cn rdns) as (_ & R2 & _).
    destruct (entry_results E (Config s) _ p sha256) as [c2 [e2|en4]] eqn:H4; cbn [fst snd].
    { by rewrite R2, P2. }
    apply entry_results_fields in H4 as (_ & V2 & _).
    destruct (entry_seen_fields en4 ctime) as (_ & S2 & _).
    by rewrite S2, V2, R2, P2.
  - pose proof (update_processes_new E s p cn sha256 ctime rdns Hex) as Hnew.
    destruct (get_vt_results E sha256 p (Config s)) as [c [e|r]]; simpl in Hnew;
      destruct Hnew as [HP _]; rewrite HP in Hlook; [congruence|].
    rewrite lookup_insert_eq in Hlook. injection Hlook as <-. simpl.
    apply NoDup_singleton.
Qed.

End Cmdlines.

(** The second sighting of app, with --id=2 after --id=1, leaves the one
    pattern with a star. *)
Lemma update_snitch_cmdlines_witness :
  ∃ en', Processes (update_snitch Sample.matching Sample.after_app Sample.app2
                      (mkConn "1.2.3.4" 80) Sample.zeros Sample.monday).1
           !! "/usr/bin/app" = Some en' ∧ cmdlines en' = ["['app', '--id=*']"].
Proof.
  destruct (update_snitch_cmdlines Sample.matching Sample.after_app Sample.app2
              (mkConn "1.2.3.4" 80) Sample.zeros Sample.monday Sample.after_app_entry)
    as (en' & l & Hen & Hg & Hl & _).
  - vm_compute. reflexivity.
  - apply (proj1 (py_in_false _ _)). vm_compute. reflexivity.
  - apply NoDup_singleton.
  - vm_compute. reflexivity.
  - exists en'. split; [exact Hen|].
    rewrite Hl. vm_compute in Hg. injection Hg as <-. vm_compute. reflexivity.
Defined.

(** ** The event queue and a conn event of an unknown pid *)

Section Queue.

Variable E : env.

(** C1, where the code departs from it. A conn event whose pid is not in
    the pid table makes [process_queue] ask psutil for the process; when
    that process is gone, the exception of [psutil.Process] leaves
    [process_queue]: nothing is queued, nothing is written to [Errors],
    and the events after it in the batch are not looked at. *)
Theorem process_queue_unknown_pid_raises s known_pids missed_conns p rest e :
  p_type p = TConn →
  known_pids !! KInt (p_pid p) = None →
  psutil_Process E (p_pid p) = inl e →
  process_queue E s known_pids missed_conns (p :: rest) = (s, known_pids, inl e).
Proof.
  intros Htype Hpid Hps. unfold process_queue. simpl.
  by rewrite Htype, Hpid, Hps.
Qed.

(** When the process can still be asked for, the event is queued once. *)
Lemma process_queue_unknown_pid_queued s known_pids p info :
  p_type p = TConn →
  known_pids !! KInt (p_pid p) = None →
  psutil_Process E (p_pid p) = inr info →
  process_queue E s known_pids [] [p] =
    (s,
     if truthy_str (p_exe info) then <[KInt (p_pid info) := info]> known_pids
     else known_pids,
     inr [p]).
Proof.
  intros Htype Hpid Hps. unfold process_queue. simpl.
  by rewrite Htype, Hpid, Hps.
Qed.

(** On the next call, a queued event whose pid is still unknown costs one
    line of [Errors] and is dropped. *)
Lemma process_queue_missed_unknown s known_pids p :
  known_pids !! KInt (p_pid p) = None →
  process_queue E s known_pids [p] [] =
    (set_Errors
       (Errors s ++ [time_ctime E +:+ " no known process for conn: " +:+ str_proc E p]) s,
     known_pids, inr []).
Proof. intros Hpid. unfold process_queue. simpl. by rewrite Hpid. Qed.

(** And one whose pid is known by then is merged. *)
Lemma process_queue_missed_known s known_pids p known :
  p_type p = TConn →
  known_pids !! KInt (p_pid p) = Some known →
  (process_queue E s known_pids [p] []).1.1 =
    queue_pending E (time_ctime E) s [enrich p known] ∧
  (process_queue E s known_pids [p] []).2 = inr [].
Proof. intros Htype Hpid. unfold process_queue. simpl. by rewrite Hpid. Qed.

End Queue.

(** The conn event of pid 999 with no such process: [process_queue]
    raises NoSuchProcess. *)
Lemma process_queue_unknown_pid_raises_witness :
  process_queue Sample.quiet Sample.template ∅ [] [Sample.conn999] =
    (Sample.template, ∅, inl (Exn "NoSuchProcess" "(999,)")).
Proof.
  apply (process_queue_unknown_pid_raises Sample.quiet Sample.template ∅ []
           Sample.conn999 []); reflexivity.
Defined.

(** ** The pid table after the initial poll *)

Section InitialPoll.

Variable E : env.

Lemma poll_processes_pid_table procs current known_pids :
  let known_pids' := (poll_processes E procs current known_pids).2 in
  (∀ pid, known_pids' !! KInt pid = known_pids !! KInt pid) ∧
  (∀ k, k ≠ KStr "pid" → known_pids' !! k = known_pids !! k).
Proof.
  revert current known_pids. induction procs as [|info rest IH]; intros current known_pids;
    simpl; [done|].
  destruct (isfile E (p_exe info)); [|apply IH].
  destruct (IH (dict_set (p_exe info) info current) (<[KStr "pid" := info]> known_pids))
    as [H1 H2].
  split.
  - intros pid. by rewrite H1, lookup_insert_ne.
  - intros k Hk. by rewrite H2, lookup_insert_ne.
Qed.

Lemma initial_poll_known_pids s known_pids :
  (initial_poll E s known_pids).2 =
  (poll_processes E (process_iter E) [] known_pids).2.
Proof.
  unfold initial_poll.
  destruct (poll_processes E (process_iter E) [] known_pids) as [current kp].
  by destruct (poll_connections E (time_ctime E) (net_connections E) s None current).
Qed.

(** [initial_poll] writes the pid table under the one str key "pid". *)
Lemma initial_poll_pid_table s known_pids :
  let known_pids' := (initial_poll E s known_pids).2 in
  (∀ pid, known_pids' !! KInt pid = known_pids !! KInt pid) ∧
  (∀ k, k ≠ KStr "pid" → known_pids' !! k = known_pids !! k).
Proof.
  intros known_pids'. subst known_pids'. rewrite initial_poll_known_pids.
  apply poll_processes_pid_table.
Qed.

End InitialPoll.

(** C3, where the code departs from it. [initial_poll] never adds or
    changes an int key of the pid table, so no enumerated pid maps to its
    descriptor afterwards unless it did before: with curl running under
    pid 100 and an empty pid table, the table after the poll holds curl
    under the str "pid" and nothing under 100. *)
Theorem initial_poll_adds_no_pid :
  (∀ E s known_pids pid,
     (initial_poll E s known_pids).2 !! KInt pid = known_pids !! KInt pid) ∧
  (initial_poll Sample.one_process Sample.template ∅).2 =
    {[KStr "pid" := Sample.curl_running]} ∧
  (initial_poll Sample.one_process Sample.template ∅).2 !! KInt 100 = None.
Proof.
  split; [|split].
  - intros E s known_pids pid.
    destruct (initial_poll_pid_table E s known_pids) as [H _]. apply H.
  - vm_compute. reflexivity.
  - vm_compute. reflexivity.
Qed.

(** ** The monitor and a dead subprocess *)

Module MonitorFacts.
Import Monitor.

Lemma wait_token_quiet o :
  parent_alive o = true → token o = None →
  wait_token o = if alive_after_wait o then Continue else Break.
Proof.
  intros Hp Ht. unfold wait_token. rewrite Hp, Ht. simpl.
  by destruct (alive_after_wait o).
Qed.

Lemma elapsed_more st o :
  negb (Qle_bool (now o - time_last_start st) 300) = true ↔
  (300 < now o - time_last_start st)%Q.
Proof.
  rewrite negb_true_iff, <- not_true_iff_false, Qle_bool_iff.
  split; [apply Qnot_le_lt|apply Qlt_not_le].
Qed.

(** C4 (amended). In a turn that finds the subprocess exited: if more
    than 300 s have passed since its last start, a fresh subprocess is
    started and the start time reset; if not, none is started.  Then,
    with the parent alive and no token within the wait, the loop goes on
    exactly when the subprocess now current is alive after the wait, and
    is left otherwise. *)
Theorem turn_subprocess_exited st o :
  alive o = false →
  let r := turn st o in
  ((300 < now o - time_last_start st)%Q →
     started r.1 = S (started st) ∧ time_last_start r.1 = start_time o) ∧
  (¬ (300 < now o - time_last_start st)%Q → r.1 = st) ∧
  (parent_alive o = true → token o = None →
     (r.2 = Continue ↔ alive_after_wait o = true) ∧
     (r.2 = Break ↔ alive_after_wait o = false)).
Proof.
  intros Ha r. subst r. unfold turn. rewrite Ha.
  pose proof (elapsed_more st o) as Hel.
  destruct (negb (Qle_bool (now o - time_last_start st) 300)); simpl.
  - split; [done|]. split; [intros Hn; exfalso; by apply Hn, Hel|].
    intros Hp Ht. rewrite (wait_token_quiet o Hp Ht).
    by destruct (alive_after_wait o).
  - split; [intros Hlt; apply Hel in Hlt; done|]. split; [done|].
    intros Hp Ht. rewrite (wait_token_quiet o Hp Ht).
    by destruct (alive_after_wait o).
Qed.

(** C4 as stated fails twice: at exactly 300 s nothing is started and
    the loop is left; and after 301 s a fresh subprocess is started, but
    when it has exited again by the end of the wait the loop is left all
    the same. *)
Lemma restart_claim_counterexample :
  ¬ restart_claim started_at_0 (found_dead 300 false) ∧
  ¬ restart_claim started_at_0 (found_dead 301 false).
Proof.
  split; intros H; unfold restart_claim in H.
  - destruct H as [H _]; try reflexivity; [vm_compute; discriminate|].
    vm_compute in H. discriminate.
  - destruct H as [_ H]; try reflexivity; [vm_compute; discriminate|].
    vm_compute in H. discriminate.
Qed.

(** After 301 s a fresh subprocess is started, and it is alive after the
    wait: the loop goes on. *)
Lemma turn_subprocess_exited_witness :
  started (turn started_at_0 (found_dead 301 true)).1 = 2%nat ∧
  (turn started_at_0 (found_dead 301 true)).2 = Continue.
Proof.
  destruct (turn_subprocess_exited started_at_0 (found_dead 301 true) eq_refl)
    as (Hs & _ & Hc).
  split.
  - apply Hs. vm_compute. reflexivity.
  - apply Hc; reflexivity.
Defined.

End MonitorFacts.

(** ** What the ledger never loses *)

Section Growth.

Variable E : env.

Lemma config_kept_refl c : config_kept c c.
Proof. by repeat split. Qed.

Lemma config_kept_trans c1 c2 c3 :
  config_kept c1 c2 → config_kept c2 c3 → config_kept c1 c3.
Proof.
  intros (A1 & A2 & A3 & A4 & A5) (B1 & B2 & B3 & B4 & B5).
  repeat split; congruence.
Qed.

Lemma ledger_grows_refl s : ledger_grows s s.
Proof.
  split.
  - apply config_kept_refl.
  - done.
  - done.
  - intros name exes H. by exists exes.
  - intros exe en H. exists en. split; [done|]. split; [done|lia].
  - intros rdns exes H. by exists exes.
Qed.

Lemma ledger_grows_trans s1 s2 s3 :
  ledger_grows s1 s2 → ledger_grows s2 s3 → ledger_grows s1 s3.
Proof.
  intros [C1 E1 L1 N1 P1 R1] [C2 E2 L2 N2 P2 R2]. split.
  - by eapply config_kept_trans.
  - by etrans.
  - by etrans.
  - intros name exes H. destruct (N1 _ _ H) as (l1 & H1 & Hp1).
    destruct (N2 _ _ H1) as (l2 & H2 & Hp2). exists l2. split; [done|by etrans].
  - intros exe en H. destruct (P1 _ _ H) as (en1 & H1 & F1 & D1).
    destruct (P2 _ _ H1) as (en2 & H2 & F2 & D2).
    exists en2. split; [done|]. split; [congruence|lia].
  - intros rdns exes H. destruct (R1 _ _ H) as [l1 H1]. by eapply R2.
Qed.

(** Writing one more line to [Errors]. *)
Lemma set_Errors_grows s line : ledger_grows s (set_Errors (Errors s ++ [line]) s).
Proof.
  destruct (ledger_grows_refl s) as [C _ L N P R].
  split; try done. simpl. by apply prefix_app_r.
Qed.

Lemma get_vt_results_config_kept sha256 p c :
  config_kept c (get_vt_results E sha256 p c).1.
Proof. unfold get_vt_results. by repeat case_match. Qed.

Lemma update_entry_config_kept c en p cn sha256 ctime rdns :
  config_kept c (update_entry E c en p cn sha256 ctime rdns).1.1.
Proof.
  unfold update_entry.
  destruct (entry_cmdlines _ _ _) as [e|en1]; [apply config_kept_refl|].
  set (en2 := entry_remote _ _ _ _ _). unfold entry_results.
  pose proof (get_vt_results_config_kept sha256 p c) as Hvt.
  destruct (results en2 !! sha256); [apply config_kept_refl|].
  by destruct (get_vt_results _ _ _ _) as [c2 [e2|r2]].
Qed.

Lemma update_processes_config_kept s p cn sha256 ctime rdns :
  config_kept (Config s) (Config (update_processes E s p cn sha256 ctime rdns).1).
Proof.
  unfold update_processes.
  pose proof (get_vt_results_config_kept sha256 p (Config s)) as Hvt.
  destruct (Processes s !! p_exe p) as [en|].
  - pose proof (update_entry_config_kept (Config s) en p cn sha256 ctime rdns) as Hen.
    by destruct (update_entry _ _ _ _ _ _ _ _) as [[c en'] r].
  - by destruct (get_vt_results _ _ _ _) as [c [e|r]].
Qed.

Lemma update_snitch_Config s p cn sha256 ctime :
  Config (update_snitch E s p cn sha256 ctime).1 =
  Config (update_processes E s p cn sha256 ctime
            (reverse_domain_name E (reverse_dns_lookup E (ip cn)))).1.
Proof.
  unfold update_snitch. set (rdns := reverse_domain_name E _).
  set (s2 := update_names _ p cn).
  destruct (update_processes_ext E s2 s p cn sha256 ctime rdns) as (HC & _ & _).
  { subst s2. destruct (names_frame (update_latest_entries s p ctime) p cn)
      as (_ & _ & _ & -> & _). apply latest_entries_frame. }
  { subst s2. destruct (names_frame (update_latest_entries s p ctime) p cn)
      as (_ & -> & _). apply latest_entries_frame. }
  rewrite <- HC.
  destruct (update_processes E s2 p cn sha256 ctime rdns) as [s3 [e|]]; simpl; [done|].
  by destruct (remote_addresses_frame s3 p cn ctime rdns) as (_ & _ & _ & -> & _).
Qed.

Lemma update_snitch_Errors s p cn sha256 ctime :
  Errors (update_snitch E s p cn sha256 ctime).1 = Errors s.
Proof.
  unfold update_snitch. set (rdns := reverse_domain_name E _).
  set (s1 := update_latest_entries s p ctime). set (s2 := update_names s1 p cn).
  pose proof (processes_frame E s2 p cn sha256 ctime rdns) as (_ & _ & _ & HE).
  assert (Errors s2 = Errors s) as <-.
  { subst s2 s1. destruct (names_frame (update_latest_entries s p ctime) p cn)
      as (_ & _ & _ & _ & ->). apply latest_entries_frame. }
  destruct (update_processes E s2 p cn sha256 ctime rdns) as [s3 [e|]]; simpl in *;
    [done|].
  by destruct (remote_addresses_frame s3 p cn ctime rdns) as (_ & _ & _ & _ & ->).
Qed.

(** [# Update Names] extends a list at its end. *)
Lemma update_names_prefix s p cn name exes :
  Names s !! name = Some exes →
  ∃ exes', Names (update_names s p cn) !! name = Some exes' ∧ exes `prefix_of` exes'.
Proof.
  intros Hn. unfold update_names.
  destruct (Names s !! p_name p) as [l|] eqn:Hp.
  - destruct (negb (py_in (p_exe p) l)); simpl; [|by exists exes].
    destruct (decide (name = p_name p)) as [->|Hne].
    + rewrite lookup_insert_eq. exists (l ++ [p_exe p]). split; [done|].
      assert (exes = l) as -> by congruence. by apply prefix_app_r.
    + rewrite lookup_insert_ne by done. by exists exes.
  - destruct (truthy_str (ip cn) || truthy_int (port cn)); simpl; [|by exists exes].
    destruct (decide (name = p_name p)) as [->|Hne]; [congruence|].
    rewrite lookup_insert_ne by done. by exists exes.
Qed.

(** One call of [update_snitch], whatever its outcome, only adds. *)
Lemma update_snitch_grows s p cn sha256 ctime :
  ledger_grows s (update_snitch E s p cn sha256 ctime).1.
Proof.
  set (rdns := reverse_domain_name E (reverse_dns_lookup E (ip cn))).
  split.
  - rewrite update_snitch_Config. apply update_processes_config_kept.
  - by rewrite update_snitch_Errors.
  - rewrite update_snitch_Latest_Entries. unfold update_latest_entries.
    destruct (negb _ || negb _); simpl; [by apply prefix_app_r|done].
  - intros name exes H. rewrite update_snitch_Names. by apply update_names_prefix.
  - intros exe en H.
    destruct (update_snitch_Processes E s p cn sha256 ctime) as [HP _].
    rewrite HP. fold rdns.
    destruct (decide (exe = p_exe p)) as [->|Hne].
    + destruct (update_processes_existing E s p cn sha256 ctime rdns en H) as [-> _].
      rewrite lookup_insert_eq. eexists. split; [done|].
      destruct (update_entry_always E (Config s) en p cn sha256 ctime rdns)
        as (_ & Hf & Hd & _).
      split; [done|lia].
    + rewrite update_processes_other by done. exists en. split; [done|]. split; [done|lia].
  - intros k exes H. rewrite update_snitch_Remote_Addresses. fold rdns.
    destruct ((update_snitch E s p cn sha256 ctime).2); [by rewrite H|].
    destruct (decide (k = rdns)) as [->|Hne].
    + rewrite (update_remote_addresses_existing s p cn ctime rdns exes H).
      destruct (py_in (p_exe p) exes); [by rewrite H|]. by rewrite lookup_insert_eq.
    + destruct (Remote_Addresses s !! rdns) as [l|] eqn:Hk.
      * rewrite (update_remote_addresses_existing s p cn ctime rdns l Hk).
        destruct (py_in (p_exe p) l); [by rewrite H|].
        by rewrite lookup_insert_ne, H.
      * rewrite (update_remote_addresses_new s p cn ctime rdns Hk).
        destruct (not_unlogged (Config s) p cn); [|by rewrite H].
        by rewrite lookup_insert_ne, H.
Qed.

Lemma queue_missed_grows ctime known_pids s missed_conns pending_list :
  ledger_grows s (queue_missed E ctime known_pids s missed_conns pending_list).1.
Proof.
  revert s pending_list. induction missed_conns as [|p rest IH]; intros s pending_list;
    simpl; [apply ledger_grows_refl|].
  destruct (known_pids !! KInt (p_pid p)); [apply IH|].
  eapply ledger_grows_trans; [apply set_Errors_grows|apply IH].
Qed.

Lemma merge_pending_grows ctime s p :
  ledger_grows s (merge_pending E ctime s p).1.
Proof.
  unfold merge_pending. destruct (conn_of p); [apply ledger_grows_refl|].
  apply update_snitch_grows.
Qed.

Lemma queue_pending_grows ctime s pending_list :
  ledger_grows s (queue_pending E ctime s pending_list).
Proof.
  revert s. induction pending_list as [|p rest IH]; intros s; simpl;
    [apply ledger_grows_refl|].
  pose proof (merge_pending_grows ctime s p) as Hm.
  destruct (merge_pending E ctime s p) as [s1 [[kind args]|]]; simpl in Hm.
  - eapply ledger_grows_trans; [exact Hm|].
    eapply ledger_grows_trans; [apply set_Errors_grows|apply IH].
  - eapply ledger_grows_trans; [exact Hm|apply IH].
Qed.

Lemma process_queue_grows s known_pids missed_conns new_processes :
  ledger_grows s (process_queue E s known_pids missed_conns new_processes).1.1.
Proof.
  unfold process_queue.
  destruct (queue_new E _ known_pids new_processes [] []) as [kp [e|[pl pc]]];
    simpl; [apply ledger_grows_refl|].
  pose proof (queue_missed_grows (time_ctime E) kp s missed_conns pl) as Hm.
  destruct (queue_missed E (time_ctime E) kp s missed_conns pl) as [s1 pl1]. simpl in *.
  eapply ledger_grows_trans; [exact Hm|apply queue_pending_grows].
Qed.

Lemma poll_connection_grows ctime c s p current :
  ledger_grows s (poll_connection E ctime c s p current).1.1.1.
Proof.
  unfold poll_connection.
  destruct (c_pid c) as [pid|]; [|apply ledger_grows_refl].
  destruct (c_raddr c) as [[rip rport]|]; [|apply ledger_grows_refl].
  destruct (ip_is_private E rip) as [e|[|]]; try apply ledger_grows_refl.
  destruct (psutil_Process E pid) as [e|pr]; [apply ledger_grows_refl|].
  pose proof (update_snitch_grows s pr {| ip := rip; port := rport |}
                (get_sha256 E (p_exe pr)) ctime) as Hu.
  by destruct (update_snitch _ _ _ _ _ _) as [s1 r].
Qed.

Lemma poll_connections_grows ctime conns s p current :
  ledger_grows s (poll_connections E ctime conns s p current).1.
Proof.
  revert s p current. induction conns as [|c rest IH]; intros s p current; simpl;
    [apply ledger_grows_refl|].
  pose proof (poll_connection_grows ctime c s p current) as Hc.
  destruct (poll_connection E ctime c s p current) as [[[s1 p1] cur1] [[kind args]|]];
    simpl in Hc.
  - eapply ledger_grows_trans; [exact Hc|].
    eapply ledger_grows_trans; [apply set_Errors_grows|apply IH].
  - eapply ledger_grows_trans; [exact Hc|apply IH].
Qed.

Lemma poll_remaining_grows ctime procs s :
  ledger_grows s (poll_remaining E ctime procs s).
Proof.
  revert s. induction procs as [|p rest IH]; intros s; simpl; [apply ledger_grows_refl|].
  pose proof (update_snitch_grows s p {| ip := ""; port := 0 |}
                (get_sha256 E (p_exe p)) ctime) as Hu.
  destruct (update_snitch _ _ _ _ _ _) as [s1 [[kind args]|]]; simpl in Hu.
  - eapply ledger_grows_trans; [exact Hu|].
    eapply ledger_grows_trans; [apply set_Errors_grows|apply IH].
  - eapply ledger_grows_trans; [exact Hu|apply IH].
Qed.

Lemma initial_poll_grows s known_pids :
  ledger_grows s (initial_poll E s known_pids).1.
Proof.
  unfold initial_poll.
  destruct (poll_processes E (process_iter E) [] known_pids) as [current kp].
  pose proof (poll_connections_grows (time_ctime E) (net_connections E) s None current)
    as Hc.
  destruct (poll_connections E _ _ s None current) as [s1 cur1]. simpl in *.
  destruct (negb (only_log_connections (Config s1))); [|done].
  eapply ledger_grows_trans; [exact Hc|apply poll_remaining_grows].
Qed.

End Growth.

(** ** Invariants of the records *)

Section Invariants.

Variable E : env.

(** Whatever holds of the ledger through every [update_snitch] and every
    line written to [Errors] holds through [process_queue] and
    [initial_poll]. *)
Section Lifting.

Variable Inv : snitch → Prop.
Hypothesis Inv_update : ∀ s p cn sha256 ctime,
  Inv s → Inv (update_snitch E s p cn sha256 ctime).1.
Hypothesis Inv_Errors : ∀ s l, Inv s → Inv (set_Errors l s).

Lemma queue_missed_keeps ctime known_pids s missed_conns pending_list :
  Inv s → Inv (queue_missed E ctime known_pids s missed_conns pending_list).1.
Proof.
  revert s pending_list. induction missed_conns as [|p rest IH]; intros s pending_list Hs;
    simpl; [done|].
  destruct (known_pids !! KInt (p_pid p)); apply IH; [done|by apply Inv_Errors].
Qed.

Lemma queue_pending_keeps ctime s pending_list :
  Inv s → Inv (queue_pending E ctime s pending_list).
Proof.
  revert s. induction pending_list as [|p rest IH]; intros s Hs; simpl; [done|].
  assert (Hm : Inv (merge_pending E ctime s p).1).
  { unfold merge_pending. destruct (conn_of p); [done|]. by apply Inv_update. }
  destruct (merge_pending E ctime s p) as [s1 [[kind args]|]]; simpl in Hm;
    apply IH; [by apply Inv_Errors|done].
Qed.

Lemma process_queue_keeps s known_pids missed_conns new_processes :
  Inv s → Inv (process_queue E s known_pids missed_conns new_processes).1.1.
Proof.
  intros Hs. unfold process_queue.
  destruct (queue_new E _ known_pids new_processes [] []) as [kp [e|[pl pc]]];
    simpl; [done|].
  pose proof (queue_missed_keeps (time_ctime E) kp s missed_conns pl Hs) as Hm.
  destruct (queue_missed E (time_ctime E) kp s missed_conns pl) as [s1 pl1]. simpl in *.
  by apply queue_pending_keeps.
Qed.

Lemma poll_connections_keeps ctime conns s p current :
  Inv s → Inv (poll_connections E ctime conns s p current).1.
Proof.
  revert s p current. induction conns as [|c rest IH]; intros s p current Hs; simpl;
    [done|].
  assert (Hc : Inv (poll_connection E ctime c s p current).1.1.1).
  { unfold poll_connection.
    destruct (c_pid c) as [pid|]; [|done].
    destruct (c_raddr c) as [[rip rport]|]; [|done].
    destruct (ip_is_private E rip) as [e|[|]]; try done.
    destruct (psutil_Process E pid) as [e|pr]; [done|].
    pose proof (Inv_update s pr {| ip := rip; port := rport |}
                  (get_sha256 E (p_exe pr)) ctime Hs) as Hu.
    by destruct (update_snitch _ _ _ _ _ _) as [s1 r]. }
  destruct (poll_connection E ctime c s p current) as [[[s1 p1] cur1] [[kind args]|]];
    simpl in Hc; apply IH; [by apply Inv_Errors|done].
Qed.

Lemma poll_remaining_keeps ctime procs s :
  Inv s → Inv (poll_remaining E ctime procs s).
Proof.
  revert s. induction procs as [|p rest IH]; intros s Hs; simpl; [done|].
  pose proof (Inv_update s p {| ip := ""; port := 0 |}
                (get_sha256 E (p_exe p)) ctime Hs) as Hu.
  destruct (update_snitch _ _ _ _ _ _) as [s1 [[kind args]|]]; simpl in Hu;
    apply IH; [by apply Inv_Errors|done].
Qed.

Lemma initial_poll_keeps s known_pids :
  Inv s → Inv (initial_poll E s known_pids).1.
Proof.
  intros Hs. unfold initial_poll.
  destruct (poll_processes E (process_iter E) [] known_pids) as [current kp].
  pose proof (poll_connections_keeps (time_ctime E) (net_connections E) s None current Hs)
    as Hc.
  destruct (poll_connections E _ _ s None current) as [s1 cur1]. simpl in *.
  destruct (negb (only_log_connections (Config s1))); [|done].
  by apply poll_remaining_keeps.
Qed.

End Lifting.

(** The ports and the cmdlines of the record, whatever the outcome. *)
Lemma update_entry_lists c en p cn sha256 ctime rdns :
  let en' := (update_entry E c en p cn sha256 ctime rdns).1.2 in
  let a := str_cmdline E (p_cmdline p) in
  (ports en' = ports en ∨ ports en' = ports_after en cn) ∧
  (cmdlines en' = cmdlines en ∨
   ∃ l, get_common_pattern E a (cmdlines en) (8 # 10) = inr l ∧
        (a ∉ cmdlines en) ∧ cmdlines en' = sort_str l).
Proof.
  unfold update_entry.
  destruct (entry_name_fields en p) as (N1 & N2 & N3 & N4 & N5 & N6 & N7 & N8).
  destruct (entry_cmdlines E (entry_name en p) p) as [e|en1] eqn:H1; cbn [fst snd].
  { split; left; done. }
  assert (Hcmd : cmdlines en1 = cmdlines en ∨
     ∃ l, get_common_pattern E (str_cmdline E (p_cmdline p)) (cmdlines en) (8 # 10) = inr l ∧
          (str_cmdline E (p_cmdline p) ∉ cmdlines en) ∧ cmdlines en1 = sort_str l).
  { unfold entry_cmdlines in H1. rewrite N2 in H1.
    destruct (py_in _ (cmdlines en)) eqn:Hin; simpl in H1.
    - injection H1 as <-. by left.
    - destruct (get_common_pattern E _ (cmdlines en) _) as [e|l] eqn:Hg; [done|].
      injection H1 as <-. right. exists l. split; [done|]. split; [|done].
      by apply py_in_false. }
  apply entry_cmdlines_fields in H1 as (C1 & C3 & C4 & C5 & C6 & C7 & C8).
  destruct (entry_ports_fields en1 cn) as (P1 & P2 & P3 & P4 & P5 & P6 & P7 & P8).
  destruct (entry_remote_fields c (entry_ports en1 cn) p cn rdns)
    as (R1 & R2 & R3 & R4 & R5 & R6 & R7 & R8).
  assert (Hp : ports (entry_ports en1 cn) = ports_after en cn).
  { rewrite P6. unfold ports_after. by rewrite C6, N6. }
  destruct (entry_results E c _ p sha256) as [c2 [e2|en4]] eqn:H4; cbn [fst snd].
  { split; [right; congruence|]. rewrite R2, P2. exact Hcmd. }
  apply entry_results_fields in H4 as (V1 & V2 & V3 & V4 & V5 & V6 & V7).
  destruct (entry_seen_fields en4 ctime) as (S1 & S2 & S3 & S4 & S5 & S6 & S7 & S8).
  split; [right; congruence|]. rewrite S2, V2, R2, P2. exact Hcmd.
Qed.

(** The record under [proc["exe"]] after the call, whatever the outcome:
    the one that was there, updated, or a created one, or none. *)
Lemma update_snitch_record s p cn sha256 ctime en' :
  Processes (update_snitch E s p cn sha256 ctime).1 !! p_exe p = Some en' →
  (∃ en c rdns, Processes s !! p_exe p = Some en ∧
     en' = (update_entry E c en p cn sha256 ctime rdns).1.2) ∨
  (∃ c rdns r, Processes s !! p_exe p = None ∧
     en' = created_entry E c p cn sha256 ctime rdns r).
Proof.
  intros Hlook.
  destruct (update_snitch_Processes E s p cn sha256 ctime) as [HP _].
  rewrite HP in Hlook. set (rdns := reverse_domain_name E _) in Hlook.
  destruct (Processes s !! p_exe p) as [en|] eqn:Hex.
  - left. exists en, (Config s), rdns. split; [done|].
    destruct (update_processes_existing E s p cn sha256 ctime rdns en Hex) as [HP' _].
    rewrite HP', lookup_insert_eq in Hlook. by injection Hlook.
  - right. pose proof (update_processes_new E s p cn sha256 ctime rdns Hex) as Hnew.
    destruct (get_vt_results E sha256 p (Config s)) as [c [e|r]]; simpl in Hnew;
      destruct Hnew as [HP' _]; rewrite HP' in Hlook; [congruence|].
    rewrite lookup_insert_eq in Hlook. injection Hlook as <-.
    by exists (Config s), rdns, r.
Qed.

Lemma update_snitch_record_other s p cn sha256 ctime exe :
  exe ≠ p_exe p →
  Processes (update_snitch E s p cn sha256 ctime).1 !! exe = Processes s !! exe.
Proof.
  intros Hne. destruct (update_snitch_Processes E s p cn sha256 ctime) as [-> _].
  by apply update_processes_other.
Qed.

(** A sorted list of ints without duplicate is strictly increasing, and
    conversely. *)
Lemma Sorted_lt_le_NoDup (l : list Z) :
  Sorted Z.lt l ↔ Sorted Z.le l ∧ NoDup l.
Proof.
  split.
  - intros H. apply (Sorted_StronglySorted _) in H.
    induction H as [|x l Hl IH Hx]; [split; constructor|].
    destruct IH as [IH1 IH2]. split.
    + apply Sorted_cons; [done|]. destruct l; constructor.
      apply Forall_cons in Hx as [Hx _]. lia.
    + apply NoDup_cons. split; [|done]. intros Hin.
      rewrite Forall_forall in Hx. specialize (Hx _ Hin). lia.
  - intros [H Hnd]. apply (Sorted_StronglySorted _) in H.
    apply StronglySorted_Sorted.
    induction H as [|x l Hl IH Hx]; [constructor|].
    apply NoDup_cons in Hnd as [Hnin Hnd].
    constructor; [by apply IH|].
    rewrite Forall_forall in Hx |- *. intros y Hy. specialize (Hx _ Hy).
    assert (x ≠ y) by (intros ->; done). lia.
Qed.

Lemma ports_after_increasing en cn :
  Sorted Z.lt (ports en) → Sorted Z.lt (ports_after en cn).
Proof.
  intros Hs. unfold ports_after.
  destruct (py_in (port cn) (ports en)) eqn:Hin; [done|].
  apply py_in_false in Hin. apply Sorted_lt_le_NoDup in Hs as [_ Hnd].
  apply Sorted_lt_le_NoDup. split; [apply sort_int_Sorted|].
  unfold sort_int. rewrite merge_sort_Permutation.
  apply NoDup_app. split; [done|]. split; [|apply NoDup_singleton].
  intros x Hx ->%list_elem_of_singleton. done.
Qed.

Lemma update_snitch_ports_increasing s p cn sha256 ctime :
  ports_increasing s → ports_increasing (update_snitch E s p cn sha256 ctime).1.
Proof.
  intros Hinv exe en' Hlook.
  destruct (decide (exe = p_exe p)) as [->|Hne];
    [|rewrite update_snitch_record_other in Hlook by done; by eapply Hinv].
  apply update_snitch_record in Hlook as [(en & c & rdns & Hex & ->)|(c & rdns & r & _ & ->)].
  - destruct (update_entry_lists c en p cn sha256 ctime rdns) as [[->| ->] _].
    + by eapply Hinv.
    + apply ports_after_increasing. by eapply Hinv.
  - simpl. apply Sorted_cons; constructor.
Qed.

Lemma py_count_pos x (l : list string) : x ∈ l ↔ (1 ≤ py_count x l)%nat.
Proof.
  unfold py_count. split.
  - intros Hin. assert (Hx : x ∈ filter (λ y, y = x) l) by (by apply list_elem_of_filter).
    destruct (filter (λ y, y = x) l); [by apply not_elem_of_nil in Hx|simpl; lia].
  - intros Hc. destruct (filter (λ y, y = x) l) as [|z zs] eqn:Hf; [simpl in Hc; lia|].
    assert (Hz : z ∈ filter (λ y, y = x) l) by (rewrite Hf; apply list_elem_of_here).
    by apply list_elem_of_filter in Hz as [-> Hz].
Qed.

(** The [while] loop never drops the last occurrence. *)
Lemma remove_extra_keeps (fuel : nat) cp (l : list string) :
  cp ∈ l → cp ∈ remove_extra fuel cp l.
Proof.
  revert l. induction fuel as [|fuel IH]; intros l Hin; simpl; [done|].
  case_bool_decide as Hgt; [|done]. apply IH, py_count_pos.
  rewrite py_count_remove. lia.
Qed.

Lemma get_common_pattern_nonempty a l cutoff l' :
  get_common_pattern E a l cutoff = inr l' → l' ≠ [].
Proof.
  unfold get_common_pattern.
  destruct (get_close_matches E a l 1 cutoff) as [|b0 bs].
  { intros [= <-]. by destruct l. }
  set (cp := foldl _ _ _).
  destruct (py_index b0 l) as [i|] eqn:Hi; [|done]. intros [= <-].
  assert (Hlt : (i < length l)%nat).
  { clear -Hi. revert i Hi. induction l as [|y l IH]; intros i Hi; [done|]. simpl in *.
    destruct (decide (y = b0)); [injection Hi as <-; lia|].
    destruct (py_index b0 l) as [j|]; [|done]. injection Hi as <-.
    specialize (IH j eq_refl). lia. }
  assert (Hin : cp ∈ <[i:=cp]> l) by (by apply list_elem_of_insert).
  intros Hnil.
  apply (remove_extra_keeps (length (<[i:=cp]> l))) in Hin.
  rewrite Hnil in Hin. by apply not_elem_of_nil in Hin.
Qed.

Lemma update_snitch_cmdlines_kept s p cn sha256 ctime :
  cmdlines_kept s → cmdlines_kept (update_snitch E s p cn sha256 ctime).1.
Proof.
  intros Hinv exe en' Hlook.
  destruct (decide (exe = p_exe p)) as [->|Hne];
    [|rewrite update_snitch_record_other in Hlook by done; by eapply Hinv].
  apply update_snitch_record in Hlook as [(en & c & rdns & Hex & ->)|(c & rdns & r & _ & ->)].
  - destruct (Hinv _ _ Hex) as (Hs & Hnd & Hne).
    destruct (update_entry_lists c en p cn sha256 ctime rdns)
      as [_ [->|(l & Hg & Hnin & ->)]]; [done|].
    split; [apply sort_str_Sorted|]. split.
    + rewrite sort_str_Permutation. by apply (get_common_pattern_spec E _ _ _ _ Hg).
    + intros Hnil. apply (get_common_pattern_nonempty _ _ _ _ Hg).
      apply Permutation_nil_r. rewrite <- Hnil. symmetry. apply sort_str_Permutation.
  - simpl. split; [apply Sorted_cons; constructor|]. split; [apply NoDup_singleton|done].
Qed.

Lemma update_snitch_names_nodup s p cn sha256 ctime :
  names_nodup s → names_nodup (update_snitch E s p cn sha256 ctime).1.
Proof.
  intros Hinv name exes'. rewrite update_snitch_Names. unfold update_names.
  destruct (Names s !! p_name p) as [l|] eqn:Hp.
  - destruct (py_in (p_exe p) l) eqn:Hin; simpl; [by apply Hinv|].
    apply py_in_false in Hin.
    destruct (decide (name = p_name p)) as [->|Hne].
    + rewrite lookup_insert_eq. intros [= <-]. apply NoDup_app.
      split; [by eapply Hinv|]. split; [|apply NoDup_singleton].
      intros x Hx ->%list_elem_of_singleton. done.
    + rewrite lookup_insert_ne by done. apply Hinv.
  - destruct (truthy_str (ip cn) || truthy_int (port cn)); simpl; [|apply Hinv].
    destruct (decide (name = p_name p)) as [->|Hne].
    + rewrite lookup_insert_eq. intros [= <-]. apply NoDup_singleton.
    + rewrite lookup_insert_ne by done. apply Hinv.
Qed.

End Invariants.

(** ** The ledger through a whole batch and through the initial poll *)

Section WholeRuns.

Variable E : env.

(** X1. The two logs are append-only: whatever a call of [process_queue]
    or of [initial_poll] does and however it ends, [Errors] and
    [Latest Entries] after it start with what they were; a single
    [update_snitch] writes nothing to [Errors] at all. *)
Theorem logs_append_only s known_pids missed_conns new_processes p cn sha256 ctime :
  let after_queue := (process_queue E s known_pids missed_conns new_processes).1.1 in
  let after_poll := (initial_poll E s known_pids).1 in
  Errors s `prefix_of` Errors after_queue ∧
  Latest_Entries s `prefix_of` Latest_Entries after_queue ∧
  Errors s `prefix_of` Errors after_poll ∧
  Latest_Entries s `prefix_of` Latest_Entries after_poll ∧
  Errors (update_snitch E s p cn sha256 ctime).1 = Errors s.
Proof.
  intros after_queue after_poll.
  destruct (process_queue_grows E s known_pids missed_conns new_processes)
    as [_ E1 L1 _ _ _].
  destruct (initial_poll_grows E s known_pids) as [_ E2 L2 _ _ _].
  repeat split; try done. apply update_snitch_Errors.
Qed.

(** X2. Nothing is ever removed from the ledger by [process_queue] or
    [initial_poll]: every key of [Names], [Processes] and
    [Remote Addresses] is still a key afterwards, a list of [Names] is
    only extended at its end, and a record keeps its ["first seen"] while
    its ["days seen"] does not decrease. *)
Theorem ledger_never_shrinks s known_pids missed_conns new_processes :
  ∀ s', s' = (process_queue E s known_pids missed_conns new_processes).1.1 ∨
        s' = (initial_poll E s known_pids).1 →
  (∀ name exes, Names s !! name = Some exes →
     ∃ exes', Names s' !! name = Some exes' ∧ exes `prefix_of` exes') ∧
  (∀ exe en, Processes s !! exe = Some en →
     ∃ en', Processes s' !! exe = Some en' ∧
       first_seen en' = first_seen en ∧ days_seen en ≤ days_seen en') ∧
  (∀ rdns exes, Remote_Addresses s !! rdns = Some exes →
     is_Some (Remote_Addresses s' !! rdns)).
Proof.
  intros s' [-> | ->].
  - by destruct (process_queue_grows E s known_pids missed_conns new_processes).
  - by destruct (initial_poll_grows E s known_pids).
Qed.

(** X3. The configuration is read-only for the engine but for the rate
    limit: [update_snitch], [process_queue] and [initial_poll] leave every
    key of [Config] other than ["VT last request"] as it was. *)
Theorem config_read_only s known_pids missed_conns new_processes p cn sha256 ctime :
  config_kept (Config s) (Config (update_snitch E s p cn sha256 ctime).1) ∧
  config_kept (Config s)
    (Config (process_queue E s known_pids missed_conns new_processes).1.1) ∧
  config_kept (Config s) (Config (initial_poll E s known_pids).1).
Proof.
  split; [|split].
  - by destruct (update_snitch_grows E s p cn sha256 ctime).
  - by destruct (process_queue_grows E s known_pids missed_conns new_processes).
  - by destruct (initial_poll_grows E s known_pids).
Qed.

(** X4. If the ports of every record are strictly increasing, they still
    are after [update_snitch], after [process_queue] and after
    [initial_poll], however the call ends; a created record has the one
    port of the call. *)
Theorem ports_stay_increasing s known_pids missed_conns new_processes p cn sha256 ctime :
  ports_increasing s →
  ports_increasing (update_snitch E s p cn sha256 ctime).1 ∧
  ports_increasing (process_queue E s known_pids missed_conns new_processes).1.1 ∧
  ports_increasing (initial_poll E s known_pids).1.
Proof.
  intros Hs.
  assert (HE : ∀ s l, ports_increasing s → ports_increasing (set_Errors l s)) by done.
  split; [|split].
  - by apply update_snitch_ports_increasing.
  - apply process_queue_keeps; try done. apply update_snitch_ports_increasing.
  - apply initial_poll_keeps; try done. apply update_snitch_ports_increasing.
Qed.

(** X5. If the cmdlines of every record are sorted, free of duplicates
    and not empty, they still are after [update_snitch], after
    [process_queue] and after [initial_poll], however the call ends and
    whatever difflib answers. *)
Theorem cmdlines_stay_kept s known_pids missed_conns new_processes p cn sha256 ctime :
  cmdlines_kept s →
  cmdlines_kept (update_snitch E s p cn sha256 ctime).1 ∧
  cmdlines_kept (process_queue E s known_pids missed_conns new_processes).1.1 ∧
  cmdlines_kept (initial_poll E s known_pids).1.
Proof.
  intros Hs.
  assert (HE : ∀ s l, cmdlines_kept s → cmdlines_kept (set_Errors l s)) by done.
  split; [|split].
  - by apply update_snitch_cmdlines_kept.
  - apply process_queue_keeps; try done. apply update_snitch_cmdlines_kept.
  - apply initial_poll_keeps; try done. apply update_snitch_cmdlines_kept.
Qed.

(** X6. If no list of [Names] holds an exe twice, none does after
    [update_snitch], after [process_queue] and after [initial_poll]. *)
Theorem names_stay_nodup s known_pids missed_conns new_processes p cn sha256 ctime :
  names_nodup s →
  names_nodup (update_snitch E s p cn sha256 ctime).1 ∧
  names_nodup (process_queue E s known_pids missed_conns new_processes).1.1 ∧
  names_nodup (initial_poll E s known_pids).1.
Proof.
  intros Hs.
  assert (HE : ∀ s l, names_nodup s → names_nodup (set_Errors l s)) by done.
  split; [|split].
  - by apply update_snitch_names_nodup.
  - apply process_queue_keeps; try done. apply update_snitch_names_nodup.
  - apply initial_poll_keeps; try done. apply update_snitch_names_nodup.
Qed.

End WholeRuns.

Lemma template_has_no_record exe en :
  Processes Sample.template !! exe = Some en → False.
Proof. intros H. vm_compute in H. discriminate. Qed.

Lemma template_has_no_name name exes :
  Names Sample.template !! name = Some exes → False.
Proof. intros H. vm_compute in H. discriminate. Qed.

(** The batch of curl on the template ledger keeps the ports increasing. *)
Lemma ports_stay_increasing_witness : ports_increasing Batch.after_batch.
Proof.
  apply (ports_stay_increasing Sample.quiet Sample.template ∅ [] [Batch.exec100; Batch.conn100]
           Sample.curl (mkConn "1.2.3.4" 80) Sample.zeros Sample.monday).
  intros exe en H. destruct (template_has_no_record exe en H).
Defined.

Lemma cmdlines_stay_kept_witness : cmdlines_kept Batch.after_batch.
Proof.
  apply (cmdlines_stay_kept Sample.quiet Sample.template ∅ [] [Batch.exec100; Batch.conn100]
           Sample.curl (mkConn "1.2.3.4" 80) Sample.zeros Sample.monday).
  intros exe en H. destruct (template_has_no_record exe en H).
Defined.

Lemma names_stay_nodup_witness : names_nodup Batch.after_batch.
Proof.
  apply (names_stay_nodup Sample.quiet Sample.template ∅ [] [Batch.exec100; Batch.conn100]
           Sample.curl (mkConn "1.2.3.4" 80) Sample.zeros Sample.monday).
  intros name exes H. destruct (template_has_no_name name exes H).
Defined.

(** The record of /usr/bin/curl survives a later batch with its first
    sighting of Monday. *)
Lemma ledger_never_shrinks_witness :
  ∃ en', Processes (process_queue Sample.quiet Sample.after_curl ∅ []
                      [Batch.exec100; Batch.conn100]).1.1 !! "/usr/bin/curl" = Some en' ∧
         first_seen en' = Sample.monday.
Proof.
  destruct (ledger_never_shrinks Sample.quiet Sample.after_curl ∅ []
              [Batch.exec100; Batch.conn100] _ (or_introl eq_refl)) as (_ & HP & _).
  destruct (HP "/usr/bin/curl" Sample.after_curl_entry) as (en' & Hen & Hf & _).
  - vm_compute. reflexivity.
  - exists en'. split; [exact Hen|exact Hf].
Defined.

(** ** What a call that returns leaves behind *)

Section Postcondition.

Variable E : env.

Lemma update_entry_returns_results c en p cn sha256 ctime rdns c' en' :
  update_entry E c en p cn sha256 ctime rdns = (c', en', None) →
  is_Some (results en' !! sha256) ∧
  (∀ k v, results en !! k = Some v → results en' !! k = Some v).
Proof.
  unfold update_entry.
  destruct (entry_name_fields en p) as (_ & _ & _ & _ & _ & _ & _ & N8).
  destruct (entry_cmdlines E (entry_name en p) p) as [e|en1] eqn:H1; [done|].
  apply entry_cmdlines_fields in H1 as (_ & _ & _ & _ & _ & _ & C8).
  destruct (entry_ports_fields en1 cn) as (_ & _ & _ & _ & _ & _ & _ & P8).
  destruct (entry_remote_fields c (entry_ports en1 cn) p cn rdns)
    as (_ & _ & _ & _ & _ & _ & _ & R8).
  set (en3 := entry_remote c (entry_ports en1 cn) p cn rdns) in *.
  assert (H3 : results en3 = results en) by congruence.
  unfold entry_results. rewrite H3.
  destruct (results en !! sha256) as [v|] eqn:Hv.
  - intros [= <- <-]. destruct (entry_seen_fields en3 ctime) as (_ & _ & _ & _ & _ & _ & _ & S8).
    rewrite S8, H3. split; [by rewrite Hv|done].
  - destruct (get_vt_results E sha256 p c) as [c2 [e2|r2]]; [done|].
    intros [= <- <-].
    destruct (entry_seen_fields (set_results (<[sha256:=r2]> (results en)) en3) ctime)
      as (_ & _ & _ & _ & _ & _ & _ & S8).
    rewrite S8. simpl. split; [by rewrite lookup_insert_eq|].
    intros k v Hk. destruct (decide (k = sha256)) as [->|Hne]; [congruence|].
    by rewrite lookup_insert_ne.
Qed.

(** X9. After a call of [update_snitch] that returns, [Processes] has a
    record for [proc["exe"]] whose ["last seen"] is the time of the call,
    whose ports hold the port of the call and whose results have an
    entry for the sha256 of the call; a reputation stored before is not
    overwritten; and when the record is new its ["first seen"] is the
    time of the call, its ["days seen"] is 1 and its only cmdline is
    [str(proc["cmdline"])]. *)
Theorem update_snitch_record_written s p cn sha256 ctime :
  let out := update_snitch E s p cn sha256 ctime in
  out.2 = None →
  ∃ en', Processes out.1 !! p_exe p = Some en' ∧
    last_seen en' = ctime ∧
    port cn ∈ ports en' ∧
    is_Some (results en' !! sha256) ∧
    match Processes s !! p_exe p with
    | Some en =>
        first_seen en' = first_seen en ∧
        (∀ k v, results en !! k = Some v → results en' !! k = Some v)
    | None =>
        first_seen en' = ctime ∧ days_seen en' = 1 ∧ e_name en' = p_name p ∧
        cmdlines en' = [str_cmdline E (p_cmdline p)] ∧ ports en' = [port cn]
    end.
Proof.
  intros out Hret.
  destruct (update_snitch_Processes E s p cn sha256 ctime) as [HP Hr].
  fold out in HP, Hr. set (rdns := reverse_domain_name E _) in HP, Hr.
  rewrite Hret in Hr. symmetry in Hr.
  destruct (Processes s !! p_exe p) as [en|] eqn:Hex.
  - destruct (update_processes_existing E s p cn sha256 ctime rdns en Hex) as [HP' Hr'].
    rewrite Hr in Hr'.
    destruct (update_entry E (Config s) en p cn sha256 ctime rdns)
      as [[c1 en1] r] eqn:Hen. simpl in *. subst r.
    exists en1. rewrite HP, HP', lookup_insert_eq. split; [done|].
    destruct (update_entry_returns_results _ _ _ _ _ _ _ _ _ Hen) as [Hres Hold].
    apply update_entry_returns in Hen as (_ & _ & Hf & Hl & _ & Hports & _).
    split; [done|]. split; [rewrite Hports; apply elem_of_ports_after|].
    split; [done|]. by split.
  - pose proof (update_processes_new E s p cn sha256 ctime rdns Hex) as Hnew.
    destruct (get_vt_results E sha256 p (Config s)) as [c [e|r]]; simpl in Hnew;
      destruct Hnew as [HP' Hr']; [congruence|].
    eexists. rewrite HP, HP', lookup_insert_eq. split; [done|]. simpl.
    split; [done|]. split; [apply list_elem_of_here|].
    split; [by rewrite lookup_singleton_eq|]. done.
Qed.

(** X10. An exec-only merge (empty ip, port 0) under a name that is not a
    key of [Names] leaves [Names] as it is, so the name is still unknown
    at the next such merge: every one of them, the first as the later
    ones, adds its line to [Latest Entries]. *)
Theorem exec_only_logged_every_time s p sha1 ctime1 sha2 ctime2 :
  let exec_only := {| ip := ""; port := 0 |} in
  let s1 := (update_snitch E s p exec_only sha1 ctime1).1 in
  let s2 := (update_snitch E s1 p exec_only sha2 ctime2).1 in
  Names s !! p_name p = None →
  Names s1 = Names s ∧ Names s2 = Names s ∧
  Latest_Entries s2 =
    Latest_Entries s ++ [ctime1 +:+ " " +:+ p_name p +:+ " - " +:+ p_exe p;
                         ctime2 +:+ " " +:+ p_name p +:+ " - " +:+ p_exe p].
Proof.
  intros exec_only s1 s2 Hname.
  assert (Hstep : ∀ s0 sha ct, Names s0 !! p_name p = None →
    Names (update_snitch E s0 p exec_only sha ct).1 = Names s0 ∧
    Latest_Entries (update_snitch E s0 p exec_only sha ct).1 =
      Latest_Entries s0 ++ [ct +:+ " " +:+ p_name p +:+ " - " +:+ p_exe p]).
  { intros s0 sha ct H0. split.
    - rewrite update_snitch_Names. unfold update_names. by rewrite H0.
    - rewrite update_snitch_Latest_Entries. unfold update_latest_entries.
      rewrite H0. rewrite (bool_decide_eq_false_2 (is_Some None)) by (by intros [? ?]).
      by rewrite orb_true_r. }
  destruct (Hstep s sha1 ctime1 Hname) as [HN1 HL1]. fold s1 in HN1, HL1.
  destruct (Hstep s1 sha2 ctime2) as [HN2 HL2]; [by rewrite HN1|]. fold s2 in HN2, HL2.
  split; [done|]. split; [congruence|]. rewrite HL2, HL1. by rewrite <- app_assoc.
Qed.

End Postcondition.

Lemma update_snitch_record_written_witness :
  ∃ en', Processes (update_snitch Sample.quiet Sample.after_curl Sample.curl
                      (mkConn "1.2.3.4" 80) Sample.zeros Sample.tuesday).1
           !! "/usr/bin/curl" = Some en' ∧ last_seen en' = Sample.tuesday.
Proof.
  destruct (update_snitch_record_written Sample.quiet Sample.after_curl Sample.curl
              (mkConn "1.2.3.4" 80) Sample.zeros Sample.tuesday)
    as (en' & Hen & Hl & _).
  - vm_compute. reflexivity.
  - exists en'. split; [exact Hen|exact Hl].
Defined.

Lemma exec_only_logged_every_time_witness :
  Latest_Entries
    (update_snitch Sample.quiet
       (update_snitch Sample.quiet Sample.template Sample.curl_exec (mkConn "" 0)
          Sample.zeros Sample.monday).1
       Sample.curl_exec (mkConn "" 0) Sample.zeros Sample.tuesday).1 =
  ["Mon Jan  1 23:59:59 2024 curl - /usr/bin/curl";
   "Tue Jan  2 00:00:01 2024 curl - /usr/bin/curl"].
Proof.
  destruct (exec_only_logged_every_time Sample.quiet Sample.template Sample.curl_exec
              Sample.zeros Sample.monday Sample.zeros Sample.tuesday)
    as (_ & _ & ->).
  - vm_compute. reflexivity.
  - vm_compute. reflexivity.
Defined.

(** ** The pid table and the deferred conns of a batch *)

Section Batches.

Variable E : env.

(** The first loop but for [pending_list]: neither the pid table, nor
    [pending_conns], nor an exception depends on ["Only log connections"]
    or on what [pending_list] held. *)
Lemma queue_new_independent only_log only_log' known_pids new_processes pl pl' pc :
  let r := queue_new E only_log known_pids new_processes pl pc in
  let r' := queue_new E only_log' known_pids new_processes pl' pc in
  r.1 = r'.1 ∧
  match r.2, r'.2 with
  | inl e, inl e' => e = e'
  | inr (_, pc1), inr (_, pc2) => pc1 = pc2
  | _, _ => False
  end.
Proof.
  revert known_pids pl pl' pc.
  induction new_processes as [|p rest IH]; intros known_pids pl pl' pc; simpl; [done|].
  destruct (p_type p); [| |done].
  - destruct (shlex_word E p 0) as [e|exe]; [done|].
    destruct (if bool_decide (exe = "exec") then shlex_word E p 1 else inr exe)
      as [e|exe']; [done|]. apply IH.
  - destruct (known_pids !! KInt (p_pid p)) as [known|]; [apply IH|].
    destruct (psutil_Process E (p_pid p)) as [e|pr]; [done|]. apply IH.
Qed.

(** The conns deferred by the first loop come from the batch, in order. *)
Lemma queue_new_pending_conns only_log known_pids new_processes pl pc kp pl' pc' :
  queue_new E only_log known_pids new_processes pl pc = (kp, inr (pl', pc')) →
  ∃ added, pc' = pc ++ added ∧
    added `sublist_of` filter (λ p, p_type p = TConn) new_processes ∧
    Forall (λ p, known_pids !! KInt (p_pid p) = None) added.
Proof.
  revert known_pids pl pc.
  induction new_processes as [|p rest IH]; intros known_pids pl pc; simpl.
  { intros [= _ _ <-]. exists []. by rewrite app_nil_r. }
  destruct (p_type p) eqn:Htype; [| |done].
  - destruct (shlex_word E p 0) as [e|exe]; [done|].
    destruct (if bool_decide (exe = "exec") then shlex_word E p 1 else inr exe)
      as [e|exe']; [done|].
    intros H. apply IH in H as (added & -> & Hsub & Hall).
    exists added. split; [done|].
    rewrite filter_cons_False by (by rewrite Htype). split; [done|].
    eapply Forall_impl; [exact Hall|]. intros q Hq. simpl in Hq.
    destruct (decide (KInt (p_pid p) = KInt (p_pid q))) as [Heq|Hne].
    + by rewrite <- Heq, lookup_insert_eq in Hq.
    + by rewrite lookup_insert_ne in Hq.
  - rewrite filter_cons_True by done.
    destruct (known_pids !! KInt (p_pid p)) as [known|] eqn:Hk.
    + intros H. apply IH in H as (added & -> & Hsub & Hall).
      exists added. split; [done|]. split; [by apply sublist_cons|done].
    + destruct (psutil_Process E (p_pid p)) as [e|pr]; [done|].
      intros H. apply IH in H as (added & -> & Hsub & Hall).
      exists (p :: added). split; [by rewrite <- app_assoc|].
      split; [by apply sublist_skip|]. constructor; [done|].
      eapply Forall_impl; [exact Hall|]. intros q Hq.
      destruct (truthy_str (p_exe pr)); [|done].
      destruct (decide (KInt (p_pid pr) = KInt (p_pid q))) as [Heq|Hne].
      * by rewrite <- Heq, lookup_insert_eq in Hq.
      * by rewrite lookup_insert_ne in Hq.
Qed.

(** X11. The conns that [process_queue] returns for the next round are
    conn events of this batch, in their order, whose pid was not in the
    pid table at call entry; the returned list, the pid table and an
    exception of the call depend neither on the ledger nor on
    [missed_conns], so a conn that was deferred once is never deferred
    again. *)
Theorem process_queue_defers_once s s' known_pids missed_conns missed_conns' new_processes :
  let r := process_queue E s known_pids missed_conns new_processes in
  let r' := process_queue E s' known_pids missed_conns' new_processes in
  r.2 = r'.2 ∧ r.1.2 = r'.1.2 ∧
  ∀ pending_conns, r.2 = inr pending_conns →
    pending_conns `sublist_of` filter (λ p, p_type p = TConn) new_processes ∧
    Forall (λ p, known_pids !! KInt (p_pid p) = None) pending_conns.
Proof.
  intros r r'. subst r r'. unfold process_queue.
  pose proof (queue_new_independent (only_log_connections (Config s))
                (only_log_connections (Config s')) known_pids new_processes [] [] [])
    as [Hkp Hres].
  pose proof (queue_new_pending_conns (only_log_connections (Config s)) known_pids
                new_processes [] []) as Hpc.
  destruct (queue_new E (only_log_connections (Config s)) known_pids new_processes [] [])
    as [kp [e|[pl pc]]];
  destruct (queue_new E (only_log_connections (Config s')) known_pids new_processes [] [])
    as [kp' [e'|[pl' pc']]]; simpl in *; try done.
  - subst. done.
  - subst.
    destruct (queue_missed E (time_ctime E) kp' s missed_conns pl) as [s1 pl1].
    destruct (queue_missed E (time_ctime E) kp' s' missed_conns' pl') as [s1' pl1'].
    simpl. split; [done|]. split; [done|].
    intros pending_conns [= <-].
    destruct (Hpc _ _ _ eq_refl) as (added & -> & Hsub & Hall). done.
Qed.

(** The pid table through the first loop. *)
Lemma queue_new_table only_log known_pids new_processes pl pc :
  let r := queue_new E only_log known_pids new_processes pl pc in
  (∀ k, is_Some (known_pids !! k) → is_Some (r.1 !! k)) ∧
  (is_Some (sum_rect (λ _, option unit) (λ _, None) (λ _, Some ()) r.2) →
   ∀ p, p ∈ new_processes → p_type p = TExec → is_Some (r.1 !! KInt (p_pid p))).
Proof.
  revert known_pids pl pc.
  induction new_processes as [|p rest IH]; intros known_pids pl pc; simpl.
  { split; [done|]. intros _ q Hq. by apply not_elem_of_nil in Hq. }
  assert (Hins : ∀ (k0 : pykey) (v : proc) k,
            is_Some (known_pids !! k) → is_Some (<[k0 := v]> known_pids !! k)).
  { intros k0 v k Hk. destruct (decide (k0 = k)) as [->|Hne].
    - by rewrite lookup_insert_eq.
    - by rewrite lookup_insert_ne. }
  destruct (p_type p) eqn:Htype.
  - destruct (shlex_word E p 0) as [e|exe]; simpl; [split; [done|by intros [? ?]]|].
    destruct (if bool_decide (exe = "exec") then shlex_word E p 1 else inr exe)
      as [e|exe']; simpl; [split; [done|by intros [? ?]]|].
    match goal with |- context [queue_new E only_log ?kp rest ?a ?b] =>
      destruct (IH kp a b) as [IH1 IH2] end.
    split.
    + intros k Hk. apply IH1. by apply Hins.
    + intros Hret q Hq Hqt. apply elem_of_cons in Hq as [->|Hq]; [|by apply IH2].
      apply IH1. by rewrite lookup_insert_eq.
  - destruct (known_pids !! KInt (p_pid p)) as [known|] eqn:Hk.
    + match goal with |- context [queue_new E only_log ?kp rest ?a ?b] =>
        destruct (IH kp a b) as [IH1 IH2] end.
      split; [done|]. intros Hret q Hq Hqt.
      apply elem_of_cons in Hq as [->|Hq]; [congruence|by apply IH2].
    + destruct (psutil_Process E (p_pid p)) as [e|pr]; simpl;
        [split; [done|by intros [? ?]]|].
      match goal with |- context [queue_new E only_log ?kp rest ?a ?b] =>
        destruct (IH kp a b) as [IH1 IH2] end.
      split.
      * intros k Hk'. apply IH1. destruct (truthy_str (p_exe pr)); [by apply Hins|done].
      * intros Hret q Hq Hqt.
        apply elem_of_cons in Hq as [->|Hq]; [congruence|by apply IH2].
  - simpl. split; [done|by intros [? ?]].
Qed.

(** X12. [process_queue] never removes a pid from the pid table, however
    it ends; and when it returns, the pid of every exec event of the
    batch is in the table. *)
Theorem process_queue_pid_table s known_pids missed_conns new_processes :
  let r := process_queue E s known_pids missed_conns new_processes in
  (∀ k, is_Some (known_pids !! k) → is_Some (r.1.2 !! k)) ∧
  (∀ pending_conns, r.2 = inr pending_conns →
     ∀ p, p ∈ new_processes → p_type p = TExec → is_Some (r.1.2 !! KInt (p_pid p))).
Proof.
  intros r. subst r. unfold process_queue.
  destruct (queue_new_table (only_log_connections (Config s)) known_pids new_processes [] [])
    as [H1 H2].
  destruct (queue_new E _ known_pids new_processes [] []) as [kp [e|[pl pc]]]; simpl in *.
  - split; [done|]. by intros pc [=].
  - destruct (queue_missed E (time_ctime E) kp s missed_conns pl) as [s1 pl1]. simpl.
    split; [done|]. intros pc' _. apply H2. by exists ().
Qed.

Lemma queue_new_only_log known_pids new_processes pl pc kp pl' pc' :
  Forall (λ p, p_type p ≠ TConn) new_processes →
  queue_new E true known_pids new_processes pl pc = (kp, inr (pl', pc')) →
  pl' = pl.
Proof.
  revert known_pids. induction new_processes as [|p rest IH]; intros known_pids Hty; simpl.
  { by intros [= _ <- _]. }
  apply Forall_cons in Hty as [Hp Hty].
  destruct (p_type p); [|done|done].
  destruct (shlex_word E p 0) as [e|exe]; [done|].
  destruct (if bool_decide (exe = "exec") then shlex_word E p 1 else inr exe)
    as [e|exe']; [done|]. simpl. by apply IH.
Qed.

(** X13. With ["Only log connections"] set, a batch without conn events
    and with no conn left from the round before leaves the ledger exactly
    as it was, however the call ends: exec events then only feed the pid
    table. *)
Theorem process_queue_only_log_connections s known_pids new_processes :
  only_log_connections (Config s) = true →
  Forall (λ p, p_type p ≠ TConn) new_processes →
  (process_queue E s known_pids [] new_processes).1.1 = s.
Proof.
  intros Hlog Hty. unfold process_queue. rewrite Hlog.
  destruct (queue_new E true known_pids new_processes [] []) as [kp [e|[pl pc]]] eqn:Hq;
    simpl; [done|].
  by rewrite (queue_new_only_log _ _ _ _ _ _ _ Hty Hq).
Qed.

(** X14. An exec event whose cmdline has no word at all, or is the one
    word exec, makes [process_queue] raise IndexError: the exception
    leaves the call with the ledger and the pid table as they were, and
    the events behind it are not looked at. *)
Theorem process_queue_exec_without_word s known_pids missed_conns p rest cmdline :
  p_type p = TExec →
  p_cmdline p = CmdStr cmdline →
  shlex_split E cmdline = inr [] ∨ shlex_split E cmdline = inr ["exec"] →
  process_queue E s known_pids missed_conns (p :: rest) =
    (s, known_pids, inl (Exn "IndexError" "('list index out of range',)")).
Proof.
  intros Htype Hcmd Hsplit. unfold process_queue. simpl. rewrite Htype.
  unfold shlex_word. rewrite Hcmd.
  by destruct Hsplit as [-> | ->].
Qed.

End Batches.

(** The exec event of curl alone, on the template ledger, which only logs
    connections. *)
Lemma process_queue_only_log_connections_witness :
  (process_queue Sample.quiet Sample.template ∅ [] [Batch.exec100]).1.1 = Sample.template.
Proof.
  apply (process_queue_only_log_connections Sample.quiet Sample.template ∅ [Batch.exec100]).
  - reflexivity.
  - repeat constructor. discriminate.
Defined.

(** The exec event with the empty cmdline. *)
Lemma process_queue_exec_without_word_witness :
  process_queue Sample.quiet Sample.template ∅ [] [Batch.exec_empty; Batch.conn100] =
    (Sample.template, ∅, inl (Exn "IndexError" "('list index out of range',)")).
Proof.
  apply (process_queue_exec_without_word Sample.quiet Sample.template ∅ []
           Batch.exec_empty [Batch.conn100] "").
  - reflexivity.
  - reflexivity.
  - left. reflexivity.
Defined.

(** ** The initial poll and private addresses *)

Section PrivateFilter.

Variable E : env.

Lemma poll_connection_passed_over ctime c s p current :
  passed_over E c →
  poll_connection E ctime c s p current = (s, p, current, None).
Proof.
  intros Hc. unfold poll_connection.
  destruct (c_pid c) as [pid|] eqn:Hpid, (c_raddr c) as [[rip rport]|] eqn:Hraddr;
    try done.
  destruct Hc as [?|[?|(rip' & rport' & Heq & Hpriv)]]; [congruence|congruence|].
  assert (rip' = rip) as -> by congruence. by rewrite Hpriv.
Qed.

Lemma poll_connections_passed_over ctime conns s p current :
  Forall (passed_over E) conns →
  poll_connections E ctime conns s p current = (s, current).
Proof.
  induction 1 as [|c rest Hc _ IH]; simpl; [done|].
  by rewrite (poll_connection_passed_over ctime c s p current Hc).
Qed.

(** X15. With ["Only log connections"] set, an initial poll in which
    every connection lacks a pid, lacks a remote address or has a private
    remote ip leaves the ledger exactly as it was: nothing is merged and
    nothing is written to [Errors]. *)
Theorem initial_poll_private_only s known_pids :
  only_log_connections (Config s) = true →
  Forall (passed_over E) (net_connections E) →
  (initial_poll E s known_pids).1 = s.
Proof.
  intros Hlog Hall. unfold initial_poll.
  destruct (poll_processes E (process_iter E) [] known_pids) as [current kp].
  rewrite (poll_connections_passed_over _ _ s None current Hall). simpl.
  by rewrite Hlog.
Qed.

End PrivateFilter.

(** The poll with curl running and connected to the private 192.168.1.1. *)
Lemma initial_poll_private_only_witness :
  (initial_poll Batch.private_connection Sample.template ∅).1 = Sample.template.
Proof.
  apply (initial_poll_private_only Batch.private_connection Sample.template ∅).
  - reflexivity.
  - apply Forall_cons. split; [|apply Forall_nil_2].
    right. right. exists "192.168.1.1", 80. split; reflexivity.
Defined.

(** ** Reversing a domain name *)

Section ReverseName.

Variable E : env.

Lemma append_assoc (s1 s2 s3 : string) : (s1 +:+ s2) +:+ s3 = s1 +:+ (s2 +:+ s3).
Proof.
  induction s1 as [|c s1 IH]; [done|].
  change (String c ((s1 +:+ s2) +:+ s3) = String c (s1 +:+ (s2 +:+ s3))).
  by rewrite IH.
Qed.

Lemma append_empty_r (s : string) : s +:+ "" = s.
Proof.
  induction s as [|c s IH]; [done|].
  change (String c (s +:+ "") = String c s). by rewrite IH.
Qed.

Lemma rev_app_append (s1 s2 s3 : string) :
  String.rev_app s1 (s2 +:+ s3) = String.rev_app s1 s2 +:+ s3.
Proof. revert s2. induction s1 as [|c s1 IH]; intros s2; simpl; [done|]. apply (IH (String c s2)). Qed.

Lemma rev_cons c (s : string) : String.rev (String c s) = String.rev s +:+ String c "".
Proof. unfold String.rev. simpl. apply (rev_app_append s "" (String c "")). Qed.

(** The accumulator of [split_on_go] is the start of the first piece. *)
Lemma split_on_go_cur sep cur s :
  split_on_go sep cur s =
  match split_on sep s with
  | h :: t => (String.rev cur +:+ h) :: t
  | [] => []
  end.
Proof.
  unfold split_on. revert cur. induction s as [|c s IH]; intros cur; simpl.
  { by rewrite append_empty_r. }
  case_bool_decide as Hc.
  - by rewrite append_empty_r.
  - rewrite (IH (String c cur)), (IH (String c "")).
    destruct (split_on_go sep "" s) as [|h t]; [done|].
    rewrite rev_cons, append_assoc. done.
Qed.

Lemma split_on_cons sep c s :
  split_on sep (String c s) =
  if bool_decide (c = sep) then "" :: split_on sep s
  else match split_on sep s with
       | h :: t => String c h :: t
       | [] => []
       end.
Proof.
  unfold split_on at 1. simpl. case_bool_decide; [done|].
  rewrite split_on_go_cur. by destruct (split_on sep s).
Qed.

Lemma split_on_nonempty sep s : split_on sep s ≠ [].
Proof.
  induction s as [|c s IH]; [done|]. rewrite split_on_cons.
  case_bool_decide; [done|]. by destruct (split_on sep s).
Qed.

Lemma join_cons sep x y (l : list string) :
  join sep (x :: y :: l) = x +:+ sep +:+ join sep (y :: l).
Proof. done. Qed.

(** [".".join(s.split("."))] is [s]. *)
Lemma join_split_on sep s : join (String sep "") (split_on sep s) = s.
Proof.
  induction s as [|c s IH]; [done|]. rewrite split_on_cons.
  pose proof (split_on_nonempty sep s) as Hne.
  case_bool_decide as Hc.
  - subst c. destruct (split_on sep s) as [|h t]; [done|].
    rewrite join_cons, IH. reflexivity.
  - destruct (split_on sep s) as [|h t]; [done|].
    destruct t as [|h' t].
    + change (h = s) in IH. change (String c h = String c s). by rewrite IH.
    + rewrite join_cons in IH |- *. rewrite <- IH. reflexivity.
Qed.

Lemma split_on_pieces sep s : Forall (λ x, has_char sep x = false) (split_on sep s).
Proof.
  induction s as [|c s IH]; [by repeat constructor|]. rewrite split_on_cons.
  case_bool_decide as Hc; [by constructor|].
  destruct (split_on sep s) as [|h t]; [done|].
  apply Forall_cons in IH as [Hh Ht]. constructor; [|done]. simpl.
  by rewrite Hh, bool_decide_eq_false_2.
Qed.

Lemma split_on_append sep x rest :
  has_char sep x = false →
  split_on sep (x +:+ String sep rest) = x :: split_on sep rest.
Proof.
  induction x as [|c x IH]; intros Hx.
  - change (split_on sep (String sep rest) = "" :: split_on sep rest).
    rewrite split_on_cons. by rewrite bool_decide_eq_true_2.
  - simpl in Hx. apply orb_false_iff in Hx as [Hc Hx]. apply bool_decide_eq_false in Hc.
    change (split_on sep (String c (x +:+ String sep rest)) =
            String c x :: split_on sep rest).
    rewrite split_on_cons, bool_decide_eq_false_2 by done. by rewrite IH.
Qed.

Lemma split_on_piece sep x : has_char sep x = false → split_on sep x = [x].
Proof.
  induction x as [|c x IH]; simpl; intros Hx; [done|].
  apply orb_false_iff in Hx as [Hc Hx]. apply bool_decide_eq_false in Hc.
  rewrite split_on_cons, bool_decide_eq_false_2 by done. by rewrite IH.
Qed.

(** [".".join(l).split(".")] is [l], for pieces without a dot. *)
Lemma split_on_join sep (l : list string) :
  l ≠ [] → Forall (λ x, has_char sep x = false) l →
  split_on sep (join (String sep "") l) = l.
Proof.
  induction l as [|x l IH]; [done|]. intros _ Hall.
  apply Forall_cons in Hall as [Hx Hall].
  destruct l as [|y l]; [by apply split_on_piece|].
  rewrite join_cons.
  change (split_on sep (x +:+ String sep (join (String sep "") (y :: l))) = x :: y :: l).
  rewrite split_on_append by done. by rewrite IH.
Qed.

(** X16. [reverse_domain_name] returns an ip as it is; on other names it
    is its own inverse, as long as the reversed name is not taken for an
    ip either; and joining the labels it split gives the name back. *)
Theorem reverse_domain_name_twice dns :
  (is_ip_address E dns = true → reverse_domain_name E dns = dns) ∧
  (is_ip_address E dns = false →
   is_ip_address E (reverse_domain_name E dns) = false →
   reverse_domain_name E (reverse_domain_name E dns) = dns) ∧
  join "." (split_on "."%char dns) = dns.
Proof.
  split; [|split].
  - intros Hip. unfold reverse_domain_name. by rewrite Hip.
  - intros Hip Hip'. unfold reverse_domain_name in *. rewrite Hip in *. rewrite Hip'.
    rewrite split_on_join.
    + by rewrite reverse_involutive, join_split_on.
    + intros Hnil. apply (f_equal reverse) in Hnil.
      rewrite reverse_involutive in Hnil. by apply split_on_nonempty in Hnil.
    + apply Forall_reverse, split_on_pieces.
  - apply join_split_on.
Qed.

End ReverseName.

(** mail.example.com and back. *)
Lemma reverse_domain_name_twice_witness :
  reverse_domain_name Sample.quiet "mail.example.com" = "com.example.mail" ∧
  reverse_domain_name Sample.quiet "com.example.mail" = "mail.example.com".
Proof.
  split; [vm_compute; reflexivity|].
  destruct (reverse_domain_name_twice Sample.quiet "mail.example.com") as (_ & H & _).
  assert (Hr : reverse_domain_name Sample.quiet "mail.example.com" = "com.example.mail")
    by (vm_compute; reflexivity).
  rewrite Hr in H. apply H; vm_compute; reflexivity.
Defined.

(** ** The connect probe and the address families *)

(** X17. The connect probe submits nothing for AF_UNIX and AF_UNSPEC
    sockets, nor for a v4 or v6 connect to port 0; whatever it submits
    carries the pid of the caller; and the dictionary queued for a v4 or
    v6 event carries that pid and the port of the event, which is not 0. *)
Theorem connect_probe_events pid af daddr sin_port :
  (af = Bpf.AF_UNIX ∨ af = Bpf.AF_UNSPEC →
     Bpf.security_socket_connect_entry pid af daddr sin_port = None) ∧
  ((af = Bpf.AF_INET ∨ af = Bpf.AF_INET6) → Bpf.ntohs sin_port = 0 →
     Bpf.security_socket_connect_entry pid af daddr sin_port = None) ∧
  (∀ ev ntop4 ntop6,
     Bpf.security_socket_connect_entry pid af daddr sin_port = Some ev →
     let p := Bpf.queue_event ntop4 ntop6 ev in
     p_type p = TConn ∧ p_pid p = pid ∧
     (truthy_str (p_ip p) = true → p_port p ≠ 0 → (af = Bpf.AF_INET ∨ af = Bpf.AF_INET6)) ∧
     ((af = Bpf.AF_INET ∨ af = Bpf.AF_INET6) → p_port p = Bpf.ntohs sin_port ∧ p_port p ≠ 0)).
Proof.
  unfold Bpf.security_socket_connect_entry.
  split; [|split].
  - by intros [-> | ->].
  - intros [-> | ->] ->; done.
  - intros ev ntop4 ntop6.
    destruct (Z.eqb_spec af Bpf.AF_INET) as [->|Hn4].
    { destruct (Z.eqb_spec (Bpf.ntohs sin_port) 0) as [Hz|Hz]; simpl; [done|].
      intros [= <-]. simpl. split; [done|]. split; [done|]. split; [by left|done]. }
    destruct (Z.eqb_spec af Bpf.AF_INET6) as [->|Hn6].
    { destruct (Z.eqb_spec (Bpf.ntohs sin_port) 0) as [Hz|Hz]; simpl; [done|].
      intros [= <-]. simpl. split; [done|]. split; [done|]. split; [by right|done]. }
    destruct (negb _ && negb _); [|done]. intros [= <-]. simpl.
    split; [done|]. split; [done|]. split; [done|]. by intros [?|?].
Qed.
